(** * redisipc.ipc: request/response messaging over a Redis pub/sub channel

    A shallow embedding of [src/redisipc/ipc.py] and the properties of its
    correlation and dispatch engine.

    The Python object [self] becomes the record [IPC]; every method becomes a
    computation in the monad [M], which threads [self], collects the calls
    made to the outside world (Redis, handlers, the error handler) and
    carries Python exceptions. *)

From Stdlib Require Import ZArith NArith String Ascii List Bool PrimFloat.
From Stdlib.Strings Require Import Byte.
From stdpp Require Import gmap strings list fin_maps.

Set Warnings "-register-all".
Local Open Scope string_scope.
Local Open Scope list_scope.

(** ** JSON values

    [JSON = Optional[Union[str, float, bool, List[JSON], Dict[str, JSON]]]].
    [JNull] is Python's [None].  A dictionary is kept as the list of its
    items in insertion order. *)

Inductive JSON : Type :=
| JNull
| JBool (b : bool)
| JInt (n : Z)
| JFloat (x : float)
| JStr (s : string)
| JList (l : list JSON)
| JObj (items : list (string * JSON)).

(** Python truth value testing, as used by [if message:], [if resp and nonce:]
    and [if required_identity and ...]. *)
Definition truthy (j : JSON) : bool :=
  match j with
  | JNull => false
  | JBool b => b
  | JInt n => negb (Z.eqb n 0)
  | JFloat x => negb (PrimFloat.eqb x 0%float)
  | JStr s => negb (String.eqb s "")
  | JList l => match l with [] => false | _ => true end
  | JObj items => match items with [] => false | _ => true end
  end.

(** [None] for an absent optional string argument. *)
Definition opt_str (o : option string) : JSON :=
  match o with
  | Some s => JStr s
  | None => JNull
  end.

(** [d.get(k)]: the value stored under [k], [None] when there is none. *)
Fixpoint dict_get (k : string) (items : list (string * JSON)) : JSON :=
  match items with
  | [] => JNull
  | (k', v) :: rest => if String.eqb k' k then v else dict_get k rest
  end.

(** [k in d] for a dictionary given by its items. *)
Fixpoint dict_has (k : string) (items : list (string * JSON)) : bool :=
  match items with
  | [] => false
  | (k', _) :: rest => String.eqb k' k || dict_has k rest
  end.

(** [d[k] = v]: replaces the value in place, or appends a new item. *)
Fixpoint dict_set (k : string) (v : JSON) (items : list (string * JSON))
  : list (string * JSON) :=
  match items with
  | [] => [(k, v)]
  | (k', v') :: rest =>
      if String.eqb k' k then (k', v) :: rest else (k', v') :: dict_set k v rest
  end.

(** [a != b] where [b] is a [str]: only an equal string compares equal. *)
Definition ne_str (a : JSON) (b : string) : bool :=
  match a with
  | JStr s => negb (String.eqb s b)
  | _ => true
  end.

(** ** Strings *)

(** [s.startswith(p)] *)
Fixpoint startswith (p s : string) : bool :=
  match p with
  | EmptyString => true
  | String a p' =>
      match s with
      | String b s' => Ascii.eqb a b && startswith p' s'
      | EmptyString => false
      end
  end.

(** [s.replace(old, "")] for a non-empty [old]: every occurrence of [old],
    found left to right without overlap, is cut out.  [skip] counts the
    characters of the current occurrence still to be dropped. *)
Fixpoint cut_all (old : string) (skip : nat) (s : string) : string :=
  match s with
  | EmptyString => EmptyString
  | String c s' =>
      match skip with
      | S k => cut_all old k s'
      | O =>
          if startswith old s
          then cut_all old (String.length old - 1) s'
          else String c (cut_all old O s')
      end
  end.

Definition replace_handle (method : string) : string :=
  cut_all "handle_" 0 method.

(** ** Exceptions and results

    All of them derive from [Exception], except [CancelledError], which
    derives from [BaseException] and which [except Exception] does not
    catch. *)

Inductive Exn : Type :=
| RuntimeError (msg : string)
| KeyError (key : string)
| TypeError (msg : string)
| AttributeError (msg : string)
| JSONDecodeError
| UnicodeDecodeError
| TimeoutError
| CancelledError
| ConnectionError
| Exception (msg : string).

Inductive Result (A : Type) : Type :=
| Return (a : A)
| Raise (e : Exn).

Arguments Return {A} a.
Arguments Raise {A} e.

(** ** The objects [IPC] works with *)

(** A coroutine function: what awaiting a call of it on the given positional
    arguments gives.  A call with the wrong number of arguments raises
    [TypeError], which is part of [body]. *)
Record Callable : Type := {
  qualname : string;
  body : list JSON -> Result JSON
}.

(** [async def f(self)] *)
Definition def0 (name : string) (r : Result JSON) : Callable :=
  {| qualname := name;
     body := fun args =>
       match args with
       | [] => r
       | _ => Raise (TypeError "takes 1 positional argument but 2 were given")
       end |}.

(** [async def f(self, data)] *)
Definition def1 (name : string) (f : JSON -> Result JSON) : Callable :=
  {| qualname := name;
     body := fun args =>
       match args with
       | [d] => f d
       | _ => Raise (TypeError "missing 1 required positional argument")
       end |}.

(** [Handler = Callable[[Optional[JSON]], Coroutine[Any, Any, JSON]]] *)
Abbreviation Handler := Callable.

(** An [IPCRouter] instance, seen through [dir(router)] and [getattr]:
    its attribute names in [dir]'s order, each with its value. *)
Record IPCRouter : Type := {
  router_dir : list (string * Callable)
}.

(** [async def router_load(self): pass] and [router_unload] likewise. *)
Definition router_load : Callable := def0 "IPCRouter.router_load" (Return JNull).
Definition router_unload : Callable := def0 "IPCRouter.router_unload" (Return JNull).

(** [class IPCRouter] itself: the two hooks and no handler. *)
Definition base_router : IPCRouter :=
  {| router_dir := [("router_load", router_load); ("router_unload", router_unload)] |}.

(** What travels on the channel: the UTF-8 text [json.dumps] made of a
    value, text that is not JSON, or bytes that are not UTF-8. *)
Inductive Payload : Type :=
| Encoded (j : JSON)
| Garbled (raw : string)
| NotUtf8 (raw : list byte).

Definition json_dumps (j : JSON) : Payload := Encoded j.

(** [json.loads]: [JSONDecodeError] for text that is not JSON,
    [UnicodeDecodeError] for bytes that cannot be read as text. *)
Definition json_loads (p : Payload) : Result JSON :=
  match p with
  | Encoded j => Return j
  | Garbled _ => Raise JSONDecodeError
  | NotUtf8 _ => Raise UnicodeDecodeError
  end.

(** A message handed out by [PubSub.listen()]: [msg.get("type")] and
    [msg.get("data")]. *)
Record RawMsg : Type := {
  msg_type : string;
  msg_data : Payload
}.

(** [asyncio.Future] *)
Inductive Future : Type :=
| Pending
| Done (result : JSON)
| Cancelled.

Definition done (f : Future) : bool :=
  match f with
  | Pending => false
  | _ => true
  end.

(** A task made by [asyncio.create_task(self._run_handler(handler,
    message=data, nonce=nonce), name=...)]. *)
Record Task : Type := {
  task_name : string;
  task_handler : Handler;
  task_nonce : JSON;
  task_message : JSON
}.

(** The event loop: the futures it created, each under the address that
    refers to it, and the tasks scheduled on it. *)
Record EventLoop : Type := {
  futures : gmap nat Future;
  tasks : list Task
}.

(** The connection pool: [publish] and [subscribe] raise when it is down. *)
Record Redis : Type := {
  connected : bool
}.

(** [redis.pubsub()] *)
Record PubSub : Type := {
  subscribed : list string
}.

Definition ErrorHandler : Type := Exn -> JSON -> Result unit.

(** [self]; [class_name] is [self.__class__.__name__]. *)
Record IPC : Type := {
  class_name : string;
  redis : Redis;
  channel_address : string;
  identity : string;
  error_handler : option ErrorHandler;
  loop : EventLoop;
  channel : option PubSub;
  routers : list IPCRouter;
  handlers : gmap string Handler;
  nonces : gmap string nat
}.

Definition with_channel (c : option PubSub) (st : IPC) : IPC :=
  {| class_name := class_name st;
     redis := redis st; channel_address := channel_address st;
     identity := identity st; error_handler := error_handler st;
     loop := loop st; channel := c; routers := routers st;
     handlers := handlers st; nonces := nonces st |}.

Definition with_routers (r : list IPCRouter) (st : IPC) : IPC :=
  {| class_name := class_name st;
     redis := redis st; channel_address := channel_address st;
     identity := identity st; error_handler := error_handler st;
     loop := loop st; channel := channel st; routers := r;
     handlers := handlers st; nonces := nonces st |}.

Definition with_handlers (h : gmap string Handler) (st : IPC) : IPC :=
  {| class_name := class_name st;
     redis := redis st; channel_address := channel_address st;
     identity := identity st; error_handler := error_handler st;
     loop := loop st; channel := channel st; routers := routers st;
     handlers := h; nonces := nonces st |}.

Definition with_nonces (n : gmap string nat) (st : IPC) : IPC :=
  {| class_name := class_name st;
     redis := redis st; channel_address := channel_address st;
     identity := identity st; error_handler := error_handler st;
     loop := loop st; channel := channel st; routers := routers st;
     handlers := handlers st; nonces := n |}.

Definition with_loop (l : EventLoop) (st : IPC) : IPC :=
  {| class_name := class_name st;
     redis := redis st; channel_address := channel_address st;
     identity := identity st; error_handler := error_handler st;
     loop := l; channel := channel st; routers := routers st;
     handlers := handlers st; nonces := nonces st |}.

(** ** The monad of methods *)

(** A call the program makes to the outside world. *)
Inductive Effect : Type :=
| Urandom (size : nat)
| Publish (chan : string) (payload : Payload)
| Subscribe (chan : string)
| Unsubscribe (chan : string)
| Call (name : string) (args : list JSON)
| CallErrorHandler (e : Exn) (message : JSON).

(** A method run on [self]: the new [self], the calls made, in order, and
    the value returned or the exception raised. *)
Definition M (A : Type) : Type := IPC -> IPC * list Effect * Result A.

Definition ret {A} (a : A) : M A := fun st => (st, [], Return a).

Definition raise {A} (e : Exn) : M A := fun st => (st, [], Raise e).

Definition bind {A B} (m : M A) (k : A -> M B) : M B :=
  fun st =>
    match m st with
    | (st1, t1, Return a) =>
        match k a st1 with
        | (st2, t2, r) => (st2, t1 ++ t2, r)
        end
    | (st1, t1, Raise e) => (st1, t1, Raise e)
    end.

Notation "'let*' x ':=' m 'in' k" := (bind m (fun x => k))
  (at level 10, x name, m at level 100, k at level 200).
Notation "m ';;' k" := (bind m (fun _ => k))
  (at level 100, k at level 200, right associativity).

Definition self : M IPC := fun st => (st, [], Return st).

Definition modify (f : IPC -> IPC) : M unit := fun st => (f st, [], Return tt).

Definition emit (e : Effect) : M unit := fun st => (st, [e], Return tt).

(** Lifts the outcome of an awaited call. *)
Definition outcome {A} (r : Result A) : M A := fun st => (st, [], r).

(** [try: m finally: fin].  An exception raised by [fin] replaces whatever
    [m] returned or raised. *)
Definition try_finally {A} (m : M A) (fin : M unit) : M A :=
  fun st =>
    match m st with
    | (st1, t1, r) =>
        match fin st1 with
        | (st2, t2, Return _) => (st2, t1 ++ t2, r)
        | (st2, t2, Raise e) => (st2, t1 ++ t2, Raise e)
        end
    end.

(** [try: m except ...: h e] where [h] decides per exception, re-raising
    those no clause matches. *)
Definition try_except {A} (m : M A) (h : Exn -> M A) : M A :=
  fun st =>
    match m st with
    | (st1, t1, Return a) => (st1, t1, Return a)
    | (st1, t1, Raise e) =>
        match h e st1 with
        | (st2, t2, r) => (st2, t1 ++ t2, r)
        end
    end.

Definition state_of {A} (x : IPC * list Effect * Result A) : IPC := fst (fst x).
Definition calls_of {A} (x : IPC * list Effect * Result A) : list Effect := snd (fst x).
Definition result_of {A} (x : IPC * list Effect * Result A) : Result A := snd x.

(** ** Redis and the event loop *)

(** [await self.redis.publish(channel, payload)] *)
Definition redis_publish (chan : string) (payload : Payload) : M unit :=
  let* st := self in
  if connected (redis st) then emit (Publish chan payload)
  else raise ConnectionError.

(** [await pubsub.subscribe(channel)] on [self.channel] *)
Definition pubsub_subscribe (chan : string) : M unit :=
  let* st := self in
  if connected (redis st) then
    emit (Subscribe chan);;
    modify (fun st =>
      match channel st with
      | Some ps => with_channel (Some {| subscribed := subscribed ps ++ [chan] |}) st
      | None => st
      end)
  else raise ConnectionError.

(** [await self.channel.unsubscribe(channel)] *)
Definition pubsub_unsubscribe (chan : string) : M unit :=
  let* st := self in
  if connected (redis st) then
    emit (Unsubscribe chan);;
    modify (fun st =>
      match channel st with
      | Some ps =>
          with_channel
            (Some {| subscribed :=
                       filter (fun c => negb (String.eqb c chan)) (subscribed ps) |}) st
      | None => st
      end)
  else raise ConnectionError.

(** [self.loop.create_future()]: a new pending future at an unused
    address. *)
Definition create_future : M nat :=
  let* st := self in
  let fut := fresh (dom (futures (loop st))) in
  modify (with_loop {| futures := <[fut := Pending]> (futures (loop st));
                       tasks := tasks (loop st) |});;
  ret fut.

(** The state of future [fut]. *)
Definition future_state (fut : nat) (st : IPC) : Future :=
  default Pending (futures (loop st) !! fut).

Definition set_future (fut : nat) (f : Future) (st : IPC) : IPC :=
  with_loop {| futures := <[fut := f]> (futures (loop st));
               tasks := tasks (loop st) |} st.

(** [future.set_result(data)] *)
Definition set_result (fut : nat) (data : JSON) : M unit :=
  modify (set_future fut (Done data)).

(** [asyncio.create_task(coro, name=name)] *)
Definition create_task (t : Task) : M unit :=
  modify (fun st =>
    with_loop {| futures := futures (loop st);
                 tasks := tasks (loop st) ++ [t] |} st).

(** [await f(arg, ...)] *)
Definition call (f : Callable) (args : list JSON) : M JSON :=
  emit (Call (qualname f) args);;
  outcome (body f args).

(** [await self.error_handler(e, message)] *)
Definition call_error_handler (eh : ErrorHandler) (e : Exn) (message : JSON) : M unit :=
  emit (CallErrorHandler e message);;
  outcome (eh e message).

(** What goes on while a coroutine is suspended in [asyncio.wait_for]: the
    other tasks of the loop run ([meanwhile]) and the waiting task may be
    cancelled. *)
Record Suspension : Type := {
  meanwhile : IPC -> IPC;
  cancelled : bool
}.

(** [await asyncio.wait_for(future, timeout=timeout)].  When the wait ends
    the future's result is returned if it has one; otherwise the timeout
    has elapsed, the future is cancelled and [TimeoutError] is raised.
    Cancelling the waiting task cancels the future too. *)
Definition wait_for (fut : nat) (timeout : Z) (susp : Suspension) : M JSON :=
  modify (meanwhile susp);;
  let* st := self in
  if cancelled susp then
    modify (set_future fut Cancelled);; raise CancelledError
  else
    match future_state fut st with
    | Done v => ret v
    | Cancelled => raise CancelledError
    | Pending => modify (set_future fut Cancelled);; raise TimeoutError
    end.

(** ** random_hex *)

Definition hex_digit (n : N) : ascii :=
  default "0"%char (list_ascii_of_string "0123456789abcdef" !! N.to_nat n).

(** [bytes.hex()] *)
Definition hex (bs : list byte) : string :=
  foldr (fun b s =>
           String (hex_digit (Byte.to_N b / 16))
                  (String (hex_digit (Byte.to_N b mod 16)) s))
        EmptyString bs.

(** [os.urandom(_bytes).hex()], [entropy] being the bytes the system hands
    out. *)
Definition token (_bytes : nat) (entropy : list byte) : string :=
  hex (take _bytes entropy).

Definition random_hex (_bytes : nat) (entropy : list byte) : M string :=
  emit (Urandom _bytes);;
  ret (token _bytes entropy).

(** ** class IPC *)

(** The loop of [add_router], and the dictionary comprehension of
    [__init__]: every attribute whose name starts with [handle_] is stored
    under its name with [handle_] cut out. *)
Definition register_methods (attrs : list (string * Callable))
    (hs : gmap string Handler) : gmap string Handler :=
  foldl (fun hs '(method, f) =>
           if startswith "handle_" method
           then <[replace_handle method := f]> hs
           else hs)
        hs attrs.

(** [IPC.__init__] of class [cls]; [self_dir] is [dir(self)] with [getattr], [entropy]
    what [os.urandom] gives if asked. *)
Definition init (cls : string) (pool : Redis) (ev : EventLoop) (chan : string)
    (ident : option string) (eh : option ErrorHandler)
    (self_dir : list (string * Callable)) (entropy : list byte) : IPC :=
  {| class_name := cls;
     redis := pool;
     channel_address := chan;
     identity := if truthy (opt_str ident)
                 then default (token 16 entropy) ident
                 else token 16 entropy;
     error_handler := eh;
     loop := ev;
     channel := None;
     routers := [];
     handlers := register_methods self_dir ∅;
     nonces := ∅ |}.

Definition add_router (router : IPCRouter) : M unit :=
  modify (fun st => with_routers (routers st ++ [router]) st);;
  modify (fun st => with_handlers (register_methods (router_dir router) (handlers st)) st).

Definition add_handler (name : string) (func : Handler) : M unit :=
  modify (fun st => with_handlers (<[name := func]> (handlers st)) st).

(** [del self.handlers[name]] raises [KeyError] for a missing key. *)
Definition remove_handler (name : string) : M unit :=
  let* st := self in
  match handlers st !! name with
  | Some _ => modify (with_handlers (delete name (handlers st)))
  | None => raise (KeyError name)
  end.

(** [publish(op, required_identity=..., nonce=..., **data)] *)
Definition publish (op : string) (required_identity nonce : option string)
    (data : list (string * JSON)) : M unit :=
  let* st := self in
  let message := [("op", JStr op); ("data", JObj data); ("sender", JStr (identity st))] in
  let message :=
    if truthy (opt_str nonce) then dict_set "nonce" (opt_str nonce) message
    else message in
  let message :=
    if truthy (opt_str required_identity)
    then dict_set "required_identity" (opt_str required_identity) message
    else message in
  redis_publish (channel_address st) (json_dumps (JObj message)).

(** [del self.nonces[nonce]] *)
Definition del_nonce (nonce : string) : M unit :=
  let* st := self in
  match nonces st !! nonce with
  | Some _ => modify (with_nonces (delete nonce (nonces st)))
  | None => raise (KeyError nonce)
  end.

(** [self.publish(op, nonce=nonce, required_identity=required_identity,
    **data)] as [get] calls it.  [nonce] is no parameter of [get], so the
    keyword arguments [get] collects in [data] may hold it; the call then
    gives [nonce] twice and raises [TypeError] before [publish] runs.  The
    names of [get]'s own parameters cannot be among its [data]. *)
Definition publish_from_get (op : string) (required_identity : option string)
    (nonce : string) (data : list (string * JSON)) : M unit :=
  if dict_has "nonce" data
  then raise (TypeError "publish() got multiple values for keyword argument 'nonce'")
  else publish op required_identity (Some nonce) data.

(** [get(op, timeout=..., required_identity=..., **data)]; [entropy] is what
    [os.urandom] gives and [susp] what goes on during the wait. *)
Definition get (op : string) (timeout : Z) (required_identity : option string)
    (data : list (string * JSON)) (entropy : list byte) (susp : Suspension) : M JSON :=
  let* st := self in
  match channel st with
  | None =>
      raise (RuntimeError ("Must run " +:+ class_name st +:+ ".start to use this method!"))
  | Some _ =>
      let* nonce := random_hex 16 entropy in
      let* future := create_future in
      modify (fun st => with_nonces (<[nonce := future]> (nonces st)) st);;
      try_finally
        (publish_from_get op required_identity nonce data;;
         wait_for future timeout susp)
        (del_nonce nonce)
  end.

(** [_run_handler(handler, nonce, message)] *)
Definition _run_handler (handler : Handler) (nonce : JSON) (message : JSON) : M unit :=
  try_except
    (let* st := self in
     let* resp :=
       (if truthy message then call handler [message] else call handler []) in
     if truthy resp && truthy nonce then
       let data := [("nonce", nonce); ("sender", JStr (identity st)); ("data", resp)] in
       redis_publish (channel_address st) (json_dumps (JObj data))
     else ret tt)
    (fun e =>
       match e with
       | CancelledError => ret tt
       | _ =>
           let* st := self in
           match error_handler st with
           | Some eh => call_error_handler eh e message
           | None => raise e
           end
       end).

Definition ensure_channel : M unit :=
  let* st := self in
  match channel st with
  | None =>
      modify (with_channel (Some {| subscribed := [] |}));;
      pubsub_subscribe (channel_address st)
  | Some _ => ret tt
  end.

(** [message.get(key)] on what [json.loads] returned: only a dictionary has
    a [get]. *)
Definition message_get (message : JSON) (key : string) : M JSON :=
  match message with
  | JObj items => ret (dict_get key items)
  | _ => raise (AttributeError "object has no attribute 'get'")
  end.

(** [key in d] for a dictionary with string keys.  Lists and dictionaries
    are unhashable: looking one up raises [TypeError]; a number or a
    boolean is hashable and equal to no string. *)
Definition key_in {V} (key : JSON) (d : gmap string V) : M bool :=
  match key with
  | JStr s => ret (bool_decide (is_Some (d !! s)))
  | JList _ | JObj _ => raise (TypeError "unhashable type")
  | _ => ret false
  end.

(** [d.get(key)] for a dictionary with string keys. *)
Definition key_get {V} (key : JSON) (d : gmap string V) : M (option V) :=
  match key with
  | JStr s => ret (d !! s)
  | JList _ | JObj _ => raise (TypeError "unhashable type")
  | _ => ret None
  end.

Definition is_none (j : JSON) : bool :=
  match j with
  | JNull => true
  | _ => false
  end.

(** [f"redis-ipc: {op}"] *)
Definition task_name_of (op : JSON) : string :=
  match op with
  | JStr s => "redis-ipc: " +:+ s
  | _ => "redis-ipc: "
  end.

(** The body of the [async for] loop of [listen_ipc], for one message.
    Returning is [continue]. *)
Definition on_message (msg : RawMsg) : M unit :=
  if negb (String.eqb (msg_type msg) "message") then ret tt
  else
    let* message := outcome (json_loads (msg_data msg)) in
    let* op := message_get message "op" in
    let* nonce := message_get message "nonce" in
    let* sender := message_get message "sender" in
    let* data := message_get message "data" in
    let* required_identity := message_get message "required_identity" in
    let* st := self in
    let* pending :=
      (if is_none op && ne_str sender (identity st) && negb (is_none nonce)
       then key_in nonce (nonces st)
       else ret false) in
    if pending then
      let* future := key_get nonce (nonces st) in
      match future with
      | Some fut =>
          if negb (done (future_state fut st)) then set_result fut data
          else ret tt
      | None => ret tt
      end
    else
      let* handler := key_get op (handlers st) in
      match handler with
      | Some h =>
          if truthy required_identity && ne_str required_identity (identity st)
          then ret tt
          else
            create_task {| task_name := task_name_of op;
                           task_handler := h;
                           task_nonce := nonce;
                           task_message := data |}
      | None => ret tt
      end.

(** What [listen()] hands to the loop: a message, or the cancellation of the
    listening task while it waits for one. *)
Inductive Event : Type :=
| Message (msg : RawMsg)
| Cancel.

(** Where the listening coroutine stands once the given events are
    consumed: suspended in [async for], waiting for the next message. *)
Inductive LoopStatus : Type :=
| Listening
| Exited.

Fixpoint consume (events : list Event) : M LoopStatus :=
  match events with
  | [] => ret Listening
  | Message msg :: rest => on_message msg;; consume rest
  | Cancel :: _ => raise CancelledError
  end.

(** The [except asyncio.CancelledError] clause of [listen_ipc]. *)
Definition except_cancelled (e : Exn) : M LoopStatus :=
  match e with
  | CancelledError =>
      let* st := self in
      match channel st with
      | Some _ => pubsub_unsubscribe (channel_address st);; ret Exited
      | None => ret Exited
      end
  | _ => raise e
  end.

Definition listen_ipc (events : list Event) : M LoopStatus :=
  try_except
    (ensure_channel;;
     let* st := self in
     match channel st with
     | None => raise (Exception "Could not subscribe to redis channel")
     | Some _ => consume events
     end)
    except_cancelled.

Definition start (events : list Event) : M LoopStatus := listen_ipc events.

Definition close : M unit :=
  let* st := self in
  match channel st with
  | Some _ => pubsub_unsubscribe (channel_address st)
  | None => ret tt
  end.

(** Running a task the loop scheduled. *)
Definition run_task (t : Task) : M unit :=
  _run_handler (task_handler t) (task_nonce t) (task_message t).

(** ** Derived states

    States and tasks that the methods build, named for the statements
    below. *)

(** The slot and the future [get] works with on [self]. *)
Definition registered (entropy : list byte) (st : IPC) : IPC :=
  let fut := fresh (dom (futures (loop st))) in
  with_nonces (<[token 16 entropy := fut]> (nonces st))
    (with_loop {| futures := <[fut := Pending]> (futures (loop st));
                  tasks := tasks (loop st) |} st).

(** What [future.set_result(data)], guarded by [future.done() is False],
    leaves. *)
Definition resolve (fut : nat) (data : JSON) (st : IPC) : IPC :=
  if done (future_state fut st) then st else set_future fut (Done data) st.

(** The task the loop schedules for a request. *)
Definition task_for (op : string) (h : Handler) (items : list (string * JSON)) : Task :=
  {| task_name := "redis-ipc: " +:+ op;
     task_handler := h;
     task_nonce := dict_get "nonce" items;
     task_message := dict_get "data" items |}.

Definition schedule (t : Task) (st : IPC) : IPC :=
  with_loop {| futures := futures (loop st); tasks := tasks (loop st) ++ [t] |} st.

(** The router has a method that is stored under [name]. *)
Definition exposes (attrs : list (string * Callable)) (name : string) : Prop :=
  ∃ method f, In (method, f) attrs ∧ startswith "handle_" method = true
              ∧ replace_handle method = name.

(** ** Sample instances

    Two processes on the default channel: [alice] has the handlers [ping]
    (no argument) and [echo] (one argument) and is listening; [carol] is
    the same instance before [start]. *)

Definition pong : JSON := JObj [("pong", JBool true)].

Definition handle_ping : Handler := def0 "handle_ping" (Return pong).

Definition handle_echo : Handler := def1 "handle_echo" (fun d => Return d).

Definition carol : IPC :=
  init "IPC" {| connected := true |} {| futures := ∅; tasks := [] |} "ipc:1"
       (Some "a") None
       [("handle_echo", handle_echo); ("handle_ping", handle_ping)] [].

Definition alice : IPC := state_of (listen_ipc [] carol).

Definition data_message (items : list (string * JSON)) : RawMsg :=
  {| msg_type := "message"; msg_data := Encoded (JObj items) |}.

Definition entropy0 : list byte :=
  [x00; x01; x02; x03; x04; x05; x06; x07; x08; x09; x0a; x0b; x0c; x0d; x0e; xff].

Definition nobody_listens : Suspension :=
  {| meanwhile := fun st => st; cancelled := false |}.

(** The dispatch loop of the same process handles [events] during the
    wait. *)
Definition loop_handles (events : list Event) : Suspension :=
  {| meanwhile := fun st => state_of (listen_ipc events st); cancelled := false |}.

(** A router with one handler, whose load hook fails when awaited. *)
Definition stats_router : IPCRouter :=
  {| router_dir :=
       [("handle_stats", def0 "StatsRouter.handle_stats" (Return (JInt 7)));
        ("router_load", def0 "StatsRouter.router_load" (Raise (Exception "load")));
        ("router_unload", router_unload)] |}.

Definition with_redis (r : Redis) (st : IPC) : IPC :=
  {| class_name := class_name st;
     redis := r; channel_address := channel_address st;
     identity := identity st; error_handler := error_handler st;
     loop := loop st; channel := channel st; routers := routers st;
     handlers := handlers st; nonces := nonces st |}.

(** A reply of a peer [b] to the call whose token comes from [entropy0]. *)
Definition reply_items (data : JSON) : list (string * JSON) :=
  [("nonce", JStr (token 16 entropy0)); ("sender", JStr "b"); ("data", data)].

(** [alice] inside [get], after the slot for [entropy0] is registered. *)
Definition alice_waiting : IPC := registered entropy0 alice.

Definition task_cancelled : Suspension :=
  {| meanwhile := fun st => st; cancelled := true |}.

Definition garbled_message : RawMsg :=
  {| msg_type := "message"; msg_data := Garbled "{" |}.

(** What [publish("ping", nonce="n1")] of a peer [b] puts on the channel. *)
Definition ping_items : list (string * JSON) :=
  [("op", JStr "ping"); ("data", JObj []); ("sender", JStr "b"); ("nonce", JStr "n1")].

(** The same with a keyword argument [x=1]. *)
Definition ping_x_items : list (string * JSON) :=
  [("op", JStr "ping"); ("data", JObj [("x", JInt 1)]); ("sender", JStr "b");
   ("nonce", JStr "n1")].

(** [publish("echo", nonce="n1")]: no keyword argument, so [data] is the
    empty dictionary. *)
Definition echo_items : list (string * JSON) :=
  [("op", JStr "echo"); ("data", JObj []); ("sender", JStr "b"); ("nonce", JStr "n1")].

(** A request whose [required_identity] is present and is the empty
    string. *)
Definition ping_anyone_items : list (string * JSON) :=
  [("op", JStr "ping"); ("data", JObj []); ("sender", JStr "b"); ("nonce", JStr "n1");
   ("required_identity", JStr "")].

(** Whether a value can be a dictionary key: lists and dictionaries are
    unhashable. *)
Definition hashable_field (j : JSON) : bool :=
  match j with
  | JList _ | JObj _ => false
  | _ => true
  end.

(** What a run leaves of [self] apart from the event loop and the
    subscription. *)
Definition same_setup (st st' : IPC) : Prop :=
  class_name st' = class_name st ∧ redis st' = redis st
  ∧ channel_address st' = channel_address st ∧ identity st' = identity st
  ∧ error_handler st' = error_handler st ∧ routers st' = routers st
  ∧ handlers st' = handlers st ∧ nonces st' = nonces st.

(** The test of line 212 apart from the table: a data message without [op],
    from someone else than [ident], whose [nonce] is [tok]. *)
Definition answers (ident tok : string) (msg : RawMsg) : bool :=
  String.eqb (msg_type msg) "message"
  && match msg_data msg with
     | Encoded (JObj items) =>
         is_none (dict_get "op" items)
         && ne_str (dict_get "sender" items) ident
         && match dict_get "nonce" items with
            | JStr n => String.eqb n tok
            | _ => false
            end
     | _ => false
     end.

Definition event_answers (ident tok : string) (e : Event) : bool :=
  match e with
  | Message msg => answers ident tok msg
  | Cancel => false
  end.

(** Every slot of the table refers to a future of the event loop. *)
Definition slots_sound (st : IPC) : Prop :=
  ∀ n fut, nonces st !! n = Some fut → is_Some (futures (loop st) !! fut).

(** The slot of [tok] is the only one that refers to [fut]. *)
Definition owns (st : IPC) (tok : string) (fut : nat) : Prop :=
  nonces st !! tok = Some fut ∧ ∀ n, nonces st !! n = Some fut → n = tok.

(** ** Reading tokens back

    [bytes.fromhex] on the lowercase digits [bytes.hex] writes: the code
    never calls it; it is here to show that tokens tell their random bytes
    apart. *)

Definition hex_value (c : ascii) : option N :=
  (fun found => N.of_nat found.1)
    <$> list_find (fun d => d = c) (list_ascii_of_string "0123456789abcdef").

Fixpoint fromhex (s : string) : option (list byte) :=
  match s with
  | EmptyString => Some []
  | String c1 (String c2 s') =>
      match hex_value c1, hex_value c2, fromhex s' with
      | Some hi, Some lo, Some bs =>
          match Byte.of_N (16 * hi + lo) with
          | Some b => Some (b :: bs)
          | None => None
          end
      | _, _, _ => None
      end
  | String _ EmptyString => None
  end.

(** ** More sample instances *)

(** A peer of [alice] with the same handlers and the identity [b]. *)
Definition bob : IPC :=
  state_of (listen_ipc []
    (init "IPC" {| connected := true |} {| futures := ∅; tasks := [] |} "ipc:1"
          (Some "b") None
          [("handle_echo", handle_echo); ("handle_ping", handle_ping)] [])).

Definition entropy1 : list byte :=
  [x10; x11; x12; x13; x14; x15; x16; x17; x18; x19; x1a; x1b; x1c; x1d; x1e; x1f].

(** An error handler that takes note and returns. *)
Definition log_error : ErrorHandler := fun _ _ => Return tt.

Definition with_error_handler (eh : option ErrorHandler) (st : IPC) : IPC :=
  {| class_name := class_name st;
     redis := redis st; channel_address := channel_address st;
     identity := identity st; error_handler := eh;
     loop := loop st; channel := channel st; routers := routers st;
     handlers := handlers st; nonces := nonces st |}.

(** A handler that fails, and one that is cancelled while it runs. *)
Definition handle_fail : Handler := def0 "handle_fail" (Raise (Exception "boom")).
Definition handle_slow : Handler := def0 "handle_slow" (Raise CancelledError).

(** A transport message that is not a data message. *)
Definition subscribe_ack : RawMsg := {| msg_type := "subscribe"; msg_data := Garbled "1" |}.

(** ** The specification's wording

    Definitions that follow the words of the specification where they are
    compared with what the code does. *)

(** "the malformed message is dropped and the loop continues consuming
    subsequent messages": the loop goes on as if the message had not been
    there. *)
Definition decode_failure_is_dropped (st : IPC) (raw : string) (rest : list Event) : Prop :=
  listen_ipc (Message {| msg_type := "message"; msg_data := Garbled raw |} :: rest) st
  = listen_ipc rest st.

(** "invokes the handler with [data] (or no argument for zero-argument
    handlers)" *)
Definition spec_arguments (zero_argument : bool) (data : JSON) : list JSON :=
  if zero_argument then [] else [data].

(** "publishes a reply envelope with the same [nonce], [sender = identity],
    [data = result]" *)
Definition reply_envelope (st : IPC) (nonce result : JSON) : Effect :=
  Publish (channel_address st)
          (json_dumps (JObj [("nonce", nonce); ("sender", JStr (identity st));
                             ("data", result)])).

(** "drop the message": nothing changes, nothing is called, the loop goes to
    the next message. *)
Definition dropped (msg : RawMsg) (st : IPC) : Prop :=
  on_message msg st = (st, [], Return tt).

(** "then invokes the router's load hook" *)
Definition load_hook_invoked (router : IPCRouter) (st : IPC) : Prop :=
  ∃ hook, In ("router_load", hook) (router_dir router) ∧
          In (Call (qualname hook) []) (calls_of (add_router router st)).

(** * Properties *)

Arguments startswith : simpl never.
Arguments replace_handle : simpl never.

Ltac run :=
  unfold bind, ret, raise, self, modify, emit, outcome, try_finally, try_except,
         state_of, calls_of, result_of in *.

(** ** The monad *)

Lemma bind_ret {A B} (a : A) (k : A → M B) (st : IPC) : bind (ret a) k st = k a st.
Proof. run. by destruct (k a st) as [[st2 t2] r]. Qed.

Lemma bind_self {A} (k : IPC → M A) (st : IPC) : bind self k st = k st st.
Proof. run. by destruct (k st st) as [[st2 t2] r]. Qed.

Lemma bind_modify {A} (f : IPC → IPC) (k : unit → M A) (st : IPC) :
  bind (modify f) k st = k tt (f st).
Proof. run. by destruct (k tt (f st)) as [[st2 t2] r]. Qed.

Lemma bind_emit {A} (e : Effect) (k : unit → M A) (st : IPC) :
  bind (emit e) k st = match k tt st with (st', calls, r) => (st', e :: calls, r) end.
Proof. reflexivity. Qed.

Lemma bind_assoc {A B C} (m : M A) (f : A → M B) (g : B → M C) (st : IPC) :
  bind (bind m f) g st = bind m (fun a => bind (f a) g) st.
Proof.
  run. destruct (m st) as [[st1 t1] [a|e]]; [|done].
  destruct (f a st1) as [[st2 t2] [b|e]]; [|done].
  destruct (g b st2) as [[st3 t3] r]. by rewrite app_assoc.
Qed.

Lemma state_of_try_finally {A} (m : M A) (fin : M unit) (st : IPC) :
  state_of (try_finally m fin st) = state_of (fin (state_of (m st))).
Proof.
  run. destruct (m st) as [[st1 t1] r]. simpl.
  by destruct (fin st1) as [[st2 t2] []].
Qed.

(** The first call a computation makes is the first call of whatever it is
    part of. *)
Lemma calls_bind_prefix {A B} (m : M A) (k : A → M B) (st : IPC) (c : Effect) :
  (∃ t, calls_of (m st) = c :: t) →
  ∃ rest, calls_of (bind m k st) = c :: rest.
Proof.
  intros [t Ht]. run. destruct (m st) as [[st1 t1] [a|e]]; simpl in *; subst.
  - destruct (k a st1) as [[st2 t2] r]. simpl. by eexists.
  - by eexists.
Qed.

Lemma calls_try_except_prefix {A} (m : M A) (h : Exn → M A) (st : IPC) (c : Effect) :
  (∃ t, calls_of (m st) = c :: t) →
  ∃ rest, calls_of (try_except m h st) = c :: rest.
Proof.
  intros [t Ht]. run. destruct (m st) as [[st1 t1] [a|e]]; simpl in *; subst.
  - by eexists.
  - destruct (h e st1) as [[st2 t2] r]. simpl. by eexists.
Qed.

(** ** Python primitives on samples *)

Example replace_handle_prefix : replace_handle "handle_ping" = "ping".
Proof. reflexivity. Qed.

Example replace_handle_everywhere : replace_handle "handle_re_handle_x" = "re_x".
Proof. reflexivity. Qed.

Example truthy_negative_zero : truthy (JFloat (-0)%float) = false.
Proof. reflexivity. Qed.

Example token_is_hex : token 16 entropy0 = "000102030405060708090a0b0c0d0eff".
Proof. reflexivity. Qed.

Example alice_is_subscribed :
  listen_ipc [] carol = (alice, [Subscribe "ipc:1"], Return Listening)
  ∧ channel alice = Some {| subscribed := ["ipc:1"] |}.
Proof. split; reflexivity. Qed.

(** ** The handler registry *)

(** C9: [remove_handler] with a registered name removes the mapping and
    leaves every other one alone; with a name that is not registered it
    raises [KeyError] and changes nothing. *)
Theorem remove_handler_removes_or_raises (st : IPC) (name : string) :
  (is_Some (handlers st !! name) →
     result_of (remove_handler name st) = Return tt ∧
     handlers (state_of (remove_handler name st)) !! name = None ∧
     ∀ other, other ≠ name →
       handlers (state_of (remove_handler name st)) !! other = handlers st !! other)
  ∧ (handlers st !! name = None →
     remove_handler name st = (st, [], Raise (KeyError name))).
Proof.
  split.
  - intros [h Hh]. unfold remove_handler. run. rewrite Hh. simpl.
    split; [reflexivity|]. split.
    + apply lookup_delete_eq.
    + intros other Hne. by apply lookup_delete_ne.
  - intros Hh. unfold remove_handler. run. by rewrite Hh.
Qed.

(** On [alice]: [ping] is registered and goes; [pong] is not and raises. *)
Lemma remove_handler_sample :
  (result_of (remove_handler "ping" alice) = Return tt ∧
   handlers (state_of (remove_handler "ping" alice)) !! "ping" = None)
  ∧ remove_handler "pong" alice = (alice, [], Raise (KeyError "pong")).
Proof.
  destruct (remove_handler_removes_or_raises alice "ping") as [Hin _].
  destruct (remove_handler_removes_or_raises alice "pong") as [_ Hout].
  split.
  - destruct Hin as (Hr & Hg & _); [eexists; reflexivity|]. by split.
  - apply Hout. reflexivity.
Defined.

(** ** get *)

(** C3: before [start] ([self.channel] is still [None]) [get] raises the
    [RuntimeError] that asks for [start]: [os.urandom] is not asked for a
    token, nothing is published, and [self] (the table of pending calls
    included) is unchanged. *)
Theorem get_before_start (st : IPC) (op : string) (timeout : Z)
    (required_identity : option string) (data : list (string * JSON))
    (entropy : list byte) (susp : Suspension) :
  channel st = None →
  get op timeout required_identity data entropy susp st
  = (st, [],
     Raise (RuntimeError ("Must run " +:+ class_name st +:+ ".start to use this method!"))).
Proof.
  intros Hc. unfold get. run. by rewrite Hc.
Qed.

(** [carol] has not started. *)
Lemma get_before_start_sample :
  get "ping" 5 None [] entropy0 nobody_listens carol
  = (carol, [], Raise (RuntimeError "Must run IPC.start to use this method!")).
Proof.
  apply (get_before_start carol "ping" 5 None [] entropy0 nobody_listens).
  reflexivity.
Defined.

Lemma del_nonce_absent (nonce : string) (st : IPC) :
  nonces (state_of (del_nonce nonce st)) !! nonce = None.
Proof.
  unfold del_nonce. run.
  destruct (nonces st !! nonce) eqn:E; simpl; [apply lookup_delete_eq | done].
Qed.

Lemma del_nonce_others (nonce other : string) (st : IPC) :
  other ≠ nonce →
  nonces (state_of (del_nonce nonce st)) !! other = nonces st !! other.
Proof.
  intros Hne. unfold del_nonce. run.
  destruct (nonces st !! nonce) eqn:E; simpl; [by apply lookup_delete_ne | done].
Qed.

(** [get] on an instance that is subscribed: the token is drawn, the slot
    registered, and the rest runs under [finally]. *)
Lemma get_started (st : IPC) (op : string) (timeout : Z)
    (required_identity : option string) (data : list (string * JSON))
    (entropy : list byte) (susp : Suspension) :
  is_Some (channel st) →
  get op timeout required_identity data entropy susp st
  = match try_finally
            (publish_from_get op required_identity (token 16 entropy) data;;
             wait_for (fresh (dom (futures (loop st)))) timeout susp)
            (del_nonce (token 16 entropy)) (registered entropy st) with
    | (st', calls, r) => (st', Urandom 16 :: calls, r)
    end.
Proof.
  intros [ps Hc]. unfold get. rewrite bind_self, Hc.
  unfold random_hex. rewrite bind_assoc, bind_emit, bind_ret.
  unfold create_future. rewrite bind_assoc, bind_self, bind_assoc, bind_modify, bind_ret.
  by rewrite bind_modify.
Qed.

(** C4: once [get] is past the check of [self.channel], the slot it
    registers under its token is out of [self.nonces] when it exits,
    whatever the publish does, whatever runs during the wait, and whether
    the wait ends with a result, the timeout or a cancellation. *)
Theorem get_removes_pending_slot (st : IPC) (op : string) (timeout : Z)
    (required_identity : option string) (data : list (string * JSON))
    (entropy : list byte) (susp : Suspension) :
  is_Some (channel st) →
  nonces (state_of (get op timeout required_identity data entropy susp st))
    !! token 16 entropy = None.
Proof.
  intros Hc. rewrite get_started by done.
  match goal with
  | |- context [try_finally ?m ?fin ?s] =>
      pose proof (state_of_try_finally m fin s) as Hfin;
      destruct (try_finally m fin s) as [[st2 t2] r2]
  end.
  unfold state_of in *. simpl in *. rewrite Hfin.
  apply del_nonce_absent.
Qed.

(** [alice] calls [ping] and nobody answers. *)
Lemma get_removes_pending_slot_sample :
  nonces (state_of (get "ping" 5 None [] entropy0 nobody_listens alice))
    !! token 16 entropy0 = None.
Proof.
  apply (get_removes_pending_slot alice "ping" 5 None [] entropy0 nobody_listens).
  eexists. reflexivity.
Defined.

Lemma publish_state (st : IPC) (op : string) (required_identity nonce : option string)
    (data : list (string * JSON)) :
  state_of (publish op required_identity nonce data st) = st.
Proof.
  unfold publish, redis_publish. run. simpl. by destruct (connected (redis st)).
Qed.

Lemma publish_from_get_state (st : IPC) (op : string) (required_identity : option string)
    (nonce : string) (data : list (string * JSON)) :
  state_of (publish_from_get op required_identity nonce data st) = st.
Proof.
  unfold publish_from_get. destruct (dict_has "nonce" data); [done|].
  apply publish_state.
Qed.

Lemma wait_for_nonces (fut : nat) (timeout : Z) (susp : Suspension) (st : IPC) :
  nonces (state_of (wait_for fut timeout susp st)) = nonces (meanwhile susp st).
Proof.
  unfold wait_for. run. simpl.
  destruct (cancelled susp); [done|].
  by destruct (future_state fut (meanwhile susp st)).
Qed.

(** [get] takes out its own slot only: when the tasks that run during the
    wait leave the table alone, every other pending call is still there. *)
Lemma get_keeps_other_slots (st : IPC) (op : string) (timeout : Z)
    (required_identity : option string) (data : list (string * JSON))
    (entropy : list byte) (susp : Suspension) (other : string) :
  is_Some (channel st) →
  (∀ s, nonces (meanwhile susp s) = nonces s) →
  other ≠ token 16 entropy →
  nonces (state_of (get op timeout required_identity data entropy susp st)) !! other
  = nonces st !! other.
Proof.
  intros Hc Hquiet Hother. rewrite get_started by done.
  match goal with
  | |- context [try_finally ?m ?fin ?s] =>
      pose proof (state_of_try_finally m fin s) as Hfin;
      destruct (try_finally m fin s) as [[st2 t2] r2]
  end.
  unfold state_of in Hfin |- *. simpl in Hfin |- *. rewrite Hfin.
  fold (state_of (del_nonce (token 16 entropy)
    ((publish_from_get op required_identity (token 16 entropy) data;;
      wait_for (fresh (dom (futures (loop st)))) timeout susp) (registered entropy st)).1.1)).
  rewrite del_nonce_others by done.
  unfold bind.
  pose proof (publish_from_get_state (registered entropy st) op required_identity
                (token 16 entropy) data) as Hp.
  destruct (publish_from_get _ _ _ _ _) as [[st1 t1] [[]|e]]; unfold state_of in Hp;
    simpl in Hp; subst st1; simpl.
  - pose proof (wait_for_nonces (fresh (dom (futures (loop st)))) timeout susp
                  (registered entropy st)) as Hw.
    destruct (wait_for _ _ _ _) as [[st3 t3] r3]. unfold state_of in Hw. simpl in *.
    rewrite Hw, Hquiet. by apply lookup_insert_ne.
  - by apply lookup_insert_ne.
Qed.

(** The four ways out of [get]: a reply, the timeout, a cancellation, and
    a publish that Redis refuses.  Each leaves the table of pending calls
    empty, as it was. *)
Example get_exits :
  let reply := get "ping" 5 None [] entropy0
                   (loop_handles [Message (data_message (reply_items pong))]) alice in
  let silence := get "ping" 5 None [] entropy0 nobody_listens alice in
  let cancel := get "ping" 5 None [] entropy0 task_cancelled alice in
  let down := get "ping" 5 None [] entropy0 nobody_listens
                  (with_redis {| connected := false |} alice) in
  (result_of reply = Return pong ∧ nonces (state_of reply) = ∅)
  ∧ (result_of silence = Raise TimeoutError ∧ nonces (state_of silence) = ∅)
  ∧ (result_of cancel = Raise CancelledError ∧ nonces (state_of cancel) = ∅)
  ∧ (result_of down = Raise ConnectionError ∧ nonces (state_of down) = ∅
     ∧ calls_of down = [Urandom 16]).
Proof. repeat split; reflexivity. Qed.

(** ** The dispatch loop: replies *)

Lemma future_state_set (fut : nat) (f : Future) (st : IPC) :
  future_state fut (set_future fut f st) = f.
Proof. unfold future_state, set_future. simpl. by rewrite lookup_insert_eq. Qed.

Lemma future_state_set_ne (fut fut' : nat) (f : Future) (st : IPC) :
  fut ≠ fut' → future_state fut' (set_future fut f st) = future_state fut' st.
Proof.
  intros Hne. unfold future_state, set_future. simpl. by rewrite lookup_insert_ne.
Qed.

Section Reply.

(** A reply to a call of this instance: no [op], a [sender] that is someone
    else, and a [nonce] that has a slot in [self.nonces]. *)
Variables (st : IPC) (items : list (string * JSON)) (n : string) (fut : nat).
Hypothesis op_absent : dict_get "op" items = JNull.
Hypothesis from_peer : ne_str (dict_get "sender" items) (identity st) = true.
Hypothesis nonce_present : dict_get "nonce" items = JStr n.
Hypothesis slot_exists : nonces st !! n = Some fut.

Local Abbreviation resolved := (resolve fut (dict_get "data" items) st).

Lemma on_message_reply :
  on_message (data_message items) st = (resolved, [], Return tt).
Proof.
  unfold on_message, data_message, message_get, key_in, key_get, set_result, resolve.
  run. simpl.
  rewrite op_absent, from_peer, nonce_present. simpl.
  rewrite slot_exists. simpl.
  by destruct (done (future_state fut st)).
Qed.

Lemma resolved_is_done : done (future_state fut resolved) = true.
Proof.
  unfold resolve. destruct (done (future_state fut st)) eqn:E; [done|].
  by rewrite future_state_set.
Qed.

Lemma resolved_keeps_self :
  nonces resolved = nonces st ∧ identity resolved = identity st
  ∧ tasks (loop resolved) = tasks (loop st).
Proof. unfold resolve. by destruct (done (future_state fut st)). Qed.

(** The slot is resolved with the reply's data unless it was resolved
    before, no task is scheduled, and one more reply with the same nonce
    changes nothing. *)
Lemma reply_step :
  let after := on_message (data_message items) st in
  (future_state fut st = Pending →
     after = (set_future fut (Done (dict_get "data" items)) st, [], Return tt) ∧
     future_state fut (state_of after) = Done (dict_get "data" items))
  ∧ (future_state fut st ≠ Pending → after = (st, [], Return tt))
  ∧ tasks (loop (state_of after)) = tasks (loop st)
  ∧ (∀ items',
       dict_get "op" items' = JNull →
       ne_str (dict_get "sender" items') (identity st) = true →
       dict_get "nonce" items' = JStr n →
       on_message (data_message items') (state_of after) = (state_of after, [], Return tt)).
Proof.
  cbv zeta. rewrite on_message_reply. unfold state_of. simpl.
  destruct resolved_keeps_self as (Hn & Hi & Ht).
  split; [|split; [|split]].
  - unfold resolve. intros ->. simpl. split; [done|]. apply future_state_set.
  - unfold resolve. intros Hdone. by destruct (future_state fut st).
  - done.
  - intros items' Hop' Hsender' Hnonce'.
    pose proof resolved_is_done as Hd. revert Hn Hi Hd.
    generalize resolved. intros st' Hn Hi Hd.
    unfold on_message, data_message, message_get, key_in, key_get, set_result.
    run. simpl.
    rewrite Hop', Hi, Hsender', Hnonce'. simpl.
    rewrite Hn, slot_exists. simpl. by rewrite Hd.
Qed.

End Reply.

(** Every message leaves [self] as it is, resolves one pending future, or
    schedules one task. *)
Lemma on_message_state (msg : RawMsg) (st : IPC) :
  state_of (on_message msg st) = st
  ∨ (∃ fut d, future_state fut st = Pending ∧
              state_of (on_message msg st) = set_future fut (Done d) st)
  ∨ (∃ t, state_of (on_message msg st) = schedule t st).
Proof.
  unfold on_message, message_get, key_in, key_get, set_result, create_task. run.
  repeat (case_match; simpl in *; simplify_eq; try (by left)).
  all: try (right; right; by eexists).
  right; left. do 2 eexists. split; [|reflexivity].
  match goal with |- future_state ?f ?s = _ => by destruct (future_state f s) end.
Qed.

(** A future that has a result keeps it, whatever the loop receives. *)
Lemma on_message_keeps_result (msg : RawMsg) (st : IPC) (fut : nat) (v : JSON) :
  future_state fut st = Done v →
  future_state fut (state_of (on_message msg st)) = Done v.
Proof.
  intros Hv.
  destruct (on_message_state msg st) as [-> | [(fut' & d & Hp & ->) | [t ->]]];
    [done| |done].
  rewrite future_state_set_ne; [done|]. intros ->. congruence.
Qed.

Lemma on_message_keeps_self (msg : RawMsg) (st : IPC) :
  let st' := state_of (on_message msg st) in
  nonces st' = nonces st ∧ handlers st' = handlers st ∧ channel st' = channel st
  ∧ identity st' = identity st ∧ redis st' = redis st
  ∧ channel_address st' = channel_address st.
Proof.
  simpl.
  by destruct (on_message_state msg st) as [-> | [(fut' & d & Hp & ->) | [t ->]]].
Qed.

Lemma consume_keeps_result (events : list Event) (st : IPC) (fut : nat) (v : JSON) :
  future_state fut st = Done v →
  future_state fut (state_of (consume events st)) = Done v.
Proof.
  revert st. induction events as [|[msg|] rest IH]; intros st Hv; simpl; [done| |done].
  unfold bind.
  pose proof (on_message_keeps_result msg st fut v Hv) as Hstep.
  destruct (on_message msg st) as [[st1 t1] [[]|e]]; simpl in *; [|done].
  specialize (IH st1 Hstep).
  by destruct (consume rest st1) as [[st2 t2] r].
Qed.

Lemma consume_keeps_self (events : list Event) (st : IPC) :
  let st' := state_of (consume events st) in
  nonces st' = nonces st ∧ handlers st' = handlers st ∧ channel st' = channel st
  ∧ identity st' = identity st ∧ redis st' = redis st
  ∧ channel_address st' = channel_address st.
Proof.
  revert st. induction events as [|[msg|] rest IH]; intros st; simpl; [done| |done].
  unfold bind.
  pose proof (on_message_keeps_self msg st) as Hstep.
  destruct (on_message msg st) as [[st1 t1] [[]|e]]; simpl in *; [|done].
  specialize (IH st1).
  destruct (consume rest st1) as [[st2 t2] r]. unfold state_of in *. simpl in *.
  destruct Hstep as (? & ? & ? & ? & ? & ?), IH as (? & ? & ? & ? & ? & ?).
  repeat split; congruence.
Qed.

Lemma except_cancelled_loop (e : Exn) (st : IPC) :
  loop (state_of (except_cancelled e st)) = loop st
  ∧ nonces (state_of (except_cancelled e st)) = nonces st.
Proof.
  unfold except_cancelled, pubsub_unsubscribe. run.
  destruct e; simpl; try done.
  destruct (channel st) eqn:Hc; simpl; [|done].
  destruct (connected (redis st)); simpl; [|done].
  by rewrite Hc.
Qed.

(** On an instance that is subscribed, [listen_ipc] is the loop itself. *)
Lemma listen_ipc_started (events : list Event) (st : IPC) :
  is_Some (channel st) →
  listen_ipc events st = try_except (consume events) except_cancelled st.
Proof.
  intros [ps Hc]. unfold listen_ipc, ensure_channel. run. rewrite Hc. simpl. rewrite Hc.
  by destruct (consume events st) as [[st1 t1] r].
Qed.

Lemma listen_ipc_keeps_result (events : list Event) (st : IPC) (fut : nat) (v : JSON) :
  is_Some (channel st) →
  future_state fut st = Done v →
  future_state fut (state_of (listen_ipc events st)) = Done v.
Proof.
  intros Hc Hv. rewrite listen_ipc_started by done.
  pose proof (consume_keeps_result events st fut v Hv) as Hloop.
  unfold try_except. destruct (consume events st) as [[st1 t1] [a|e]]; [done|].
  pose proof (except_cancelled_loop e st1) as [Hl _].
  destruct (except_cancelled e st1) as [[st2 t2] r].
  unfold future_state, state_of in *. simpl in *. by rewrite Hl.
Qed.

Lemma listen_ipc_keeps_nonces (events : list Event) (st : IPC) :
  is_Some (channel st) →
  nonces (state_of (listen_ipc events st)) = nonces st.
Proof.
  intros Hc. rewrite listen_ipc_started by done.
  pose proof (consume_keeps_self events st) as (Hn & _).
  unfold try_except. destruct (consume events st) as [[st1 t1] [a|e]]; [done|].
  pose proof (except_cancelled_loop e st1) as [_ Hn'].
  destruct (except_cancelled e st1) as [[st2 t2] r].
  unfold state_of in *. simpl in *. congruence.
Qed.

Lemma publish_connected (st : IPC) (op : string) (required_identity nonce : option string)
    (data : list (string * JSON)) :
  connected (redis st) = true →
  state_of (publish op required_identity nonce data st) = st
  ∧ result_of (publish op required_identity nonce data st) = Return tt.
Proof.
  intros Hc. unfold publish, redis_publish. run. simpl. by rewrite Hc.
Qed.

(** The first reply decides what [get] returns: when the loop, during the
    wait, first receives a reply that carries the token of the call, [get]
    returns that reply's data, whatever the loop receives afterwards.  The
    keyword arguments of the call must not hold [nonce], with which the
    call does not get as far as publishing. *)
Lemma get_returns_first_reply (st : IPC) (op : string) (timeout : Z)
    (required_identity : option string) (data : list (string * JSON))
    (entropy : list byte) (items : list (string * JSON)) (rest : list Event) :
  is_Some (channel st) →
  connected (redis st) = true →
  dict_has "nonce" data = false →
  dict_get "op" items = JNull →
  ne_str (dict_get "sender" items) (identity st) = true →
  dict_get "nonce" items = JStr (token 16 entropy) →
  result_of (get op timeout required_identity data entropy
               (loop_handles (Message (data_message items) :: rest)) st)
  = Return (dict_get "data" items).
Proof.
  intros Hc Hup Hkw Hop Hsender Hnonce. rewrite get_started by done.
  unfold publish_from_get. rewrite Hkw.
  set (fut := fresh (dom (futures (loop st)))).
  set (st1 := registered entropy st).
  assert (Hslot : nonces st1 !! token 16 entropy = Some fut)
    by (unfold st1, registered; simpl; apply lookup_insert_eq).
  assert (Hpending : future_state fut st1 = Pending).
  { unfold st1, registered, future_state. simpl. by rewrite lookup_insert_eq. }
  assert (Hc1 : is_Some (channel st1)) by done.
  destruct (publish_connected st1 op required_identity (Some (token 16 entropy)) data Hup)
    as [Hpst Hpres].
  assert (Hdone : future_state fut
            (state_of (listen_ipc (Message (data_message items) :: rest) st1))
          = Done (dict_get "data" items)).
  { rewrite listen_ipc_started by done.
    assert (Hstep : on_message (data_message items) st1
                    = (set_future fut (Done (dict_get "data" items)) st1, [], Return tt)).
    { rewrite (on_message_reply st1 items (token 16 entropy) fut) by done.
      unfold resolve. by rewrite Hpending. }
    pose proof (consume_keeps_result rest _ fut _
                  (future_state_set fut (Done (dict_get "data" items)) st1)) as Hrest.
    unfold try_except. simpl. unfold bind. rewrite Hstep in *. unfold state_of in *.
    simpl in *.
    destruct (consume rest _) as [[st2 t2] [a|e]]; [done|].
    pose proof (except_cancelled_loop e st2) as [Hl _].
    destruct (except_cancelled e st2) as [[st3 t3] r].
    unfold future_state, state_of in *. simpl in *. by rewrite Hl. }
  unfold try_finally, bind at 1.
  destruct (publish _ _ _ _ st1) as [[stp tp] rp]. unfold state_of, result_of in *.
  simpl in *. subst stp rp.
  unfold wait_for, loop_handles. run. simpl.
  pose proof (listen_ipc_keeps_nonces (Message (data_message items) :: rest) st1 Hc1)
    as Hkept.
  unfold state_of in Hdone, Hkept. rewrite Hdone.
  change (nonces st1 !! token 16 entropy = Some fut) in Hslot.
  unfold del_nonce. run. simpl. by rewrite Hkept, Hslot.
Qed.



(** ** The dispatch loop: messages that do not decode *)




(** Bytes that are not UTF-8 end the loop with [UnicodeDecodeError]. *)
Example binary_payload_ends_loop :
  listen_ipc [Message {| msg_type := "message"; msg_data := NotUtf8 [xff; xfe] |};
              Message (data_message ping_items)] alice
  = (alice, [], Raise UnicodeDecodeError).
Proof. reflexivity. Qed.

(** A payload that decodes to something other than a dictionary ends the
    loop in the same way, at the first [message.get]. *)
Lemma non_object_payload_ends_loop (st : IPC) (l : list JSON) (rest : list Event) :
  is_Some (channel st) →
  listen_ipc (Message {| msg_type := "message"; msg_data := Encoded (JList l) |} :: rest) st
  = (st, [], Raise (AttributeError "object has no attribute 'get'")).
Proof.
  intros Hc. by rewrite listen_ipc_started.
Qed.

(** Messages of another type, such as the acknowledgment of the
    subscription, are skipped. *)
Lemma control_message_skipped (st : IPC) (ty : string) (p : Payload) :
  ty ≠ "message" → on_message {| msg_type := ty; msg_data := p |} st = (st, [], Return tt).
Proof.
  intros Hty. unfold on_message. simpl.
  destruct (String.eqb_spec ty "message"); [done|]. reflexivity.
Qed.

(** ** The dispatch loop: requests *)

(** What the loop does with a request for an operation that has a
    handler. *)
Lemma on_message_request (st : IPC) (items : list (string * JSON)) (o : string)
    (h : Handler) :
  dict_get "op" items = JStr o →
  handlers st !! o = Some h →
  on_message (data_message items) st
  = (if truthy (dict_get "required_identity" items)
        && ne_str (dict_get "required_identity" items) (identity st)
     then st else schedule (task_for o h items) st,
     [], Return tt).
Proof.
  intros Hop Hh.
  unfold on_message, data_message, message_get, key_in, key_get, create_task. run. simpl.
  rewrite Hop. simpl. rewrite Hh. simpl.
  by destruct (truthy _ && ne_str _ _).
Qed.

(** A request for [ping] whose [required_identity] is present, as the empty
    string, and differs from [alice]'s identity is not dropped by
    [alice]. *)
Lemma required_identity_not_filtered :
  dict_has "required_identity" ping_anyone_items = true
  ∧ ne_str (dict_get "required_identity" ping_anyone_items) (identity alice) = true
  ∧ handlers alice !! "ping" = Some handle_ping
  ∧ ¬ dropped (data_message ping_anyone_items) alice.
Proof.
  repeat split. intros H.
  apply (f_equal (fun x => length (tasks (loop (state_of x))))) in H.
  vm_compute in H. discriminate.
Qed.

(** C7, as the code has it: a request for an operation without a handler is
    dropped; with a handler, it is dropped when [required_identity] is
    truthy (present and not empty) and differs from this instance's
    identity; it is scheduled when [required_identity] is absent, empty, or
    this instance's identity. *)
Theorem request_filtered_by_required_identity (st : IPC)
    (items : list (string * JSON)) (o : string) :
  dict_get "op" items = JStr o →
  let rid := dict_get "required_identity" items in
  (handlers st !! o = None → dropped (data_message items) st)
  ∧ (∀ h, handlers st !! o = Some h →
          truthy rid = true → ne_str rid (identity st) = true →
          dropped (data_message items) st)
  ∧ (∀ h, handlers st !! o = Some h →
          truthy rid = false ∨ rid = JStr (identity st) →
          on_message (data_message items) st
          = (schedule (task_for o h items) st, [], Return tt)).
Proof.
  intros Hop rid. split; [|split].
  - intros Hh. unfold dropped, on_message, data_message, message_get, key_in, key_get.
    run. simpl. rewrite Hop. simpl. by rewrite Hh.
  - intros h Hh Ht Hne. unfold dropped. rewrite (on_message_request st items o h) by done.
    fold rid. by rewrite Ht, Hne.
  - intros h Hh Hrid. rewrite (on_message_request st items o h) by done.
    fold rid. destruct Hrid as [-> | ->]; [done|].
    simpl. rewrite String.eqb_refl. simpl. by rewrite andb_false_r.
Qed.

(** A request for [ping] addressed to [z] is dropped by [alice]. *)
Lemma request_filtered_by_required_identity_sample :
  dropped (data_message [("op", JStr "ping"); ("sender", JStr "b");
                         ("required_identity", JStr "z")]) alice.
Proof.
  refine (proj1 (proj2 (request_filtered_by_required_identity alice
            [("op", JStr "ping"); ("sender", JStr "b"); ("required_identity", JStr "z")]
            "ping" _)) handle_ping _ _ _);
    reflexivity.
Defined.

(** ** Handler invocations *)

Lemma call_eq (f : Callable) (args : list JSON) (st : IPC) :
  call f args st = (st, [Call (qualname f) args], body f args).
Proof. unfold call. run. by destruct (body f args). Qed.

(** The one-argument handler [echo] gets no argument when [data] is the
    empty dictionary, and the zero-argument handler [ping] gets [data] when
    it is not empty. *)
Lemma handler_called_against_arity :
  tasks (loop (state_of (on_message (data_message echo_items) alice)))
  = [task_for "echo" handle_echo echo_items]
  ∧ calls_of (run_task (task_for "echo" handle_echo echo_items) alice)
    = [Call "handle_echo" []]
  ∧ (¬ ∃ rest, calls_of (run_task (task_for "echo" handle_echo echo_items) alice)
               = Call "handle_echo" (spec_arguments false (JObj [])) :: rest)
  ∧ (¬ ∃ rest, calls_of (run_task (task_for "ping" handle_ping ping_x_items) alice)
               = Call "handle_ping" (spec_arguments true (JObj [("x", JInt 1)])) :: rest).
Proof.
  split; [reflexivity|]. split; [reflexivity|].
  split; intros [rest H]; vm_compute in H; discriminate.
Qed.

(** C5, as the code has it: the task scheduled for a request calls the
    handler with the envelope's [data] as its single argument when [data] is
    truthy, and with no argument when [data] is [None] or empty, whatever
    the number of parameters of the handler. *)
Theorem handler_called_by_truth_of_data (st : IPC) (items : list (string * JSON))
    (o : string) (h : Handler) :
  dict_get "op" items = JStr o →
  handlers st !! o = Some h →
  truthy (dict_get "required_identity" items)
    && ne_str (dict_get "required_identity" items) (identity st) = false →
  let data := dict_get "data" items in
  tasks (loop (state_of (on_message (data_message items) st)))
  = tasks (loop st) ++ [task_for o h items]
  ∧ ∀ st', ∃ rest,
      calls_of (run_task (task_for o h items) st')
      = Call (qualname h) (if truthy data then [data] else []) :: rest.
Proof.
  intros Hop Hh Hrid data. split.
  - rewrite (on_message_request st items o h) by done. by rewrite Hrid.
  - intros st'. unfold run_task, _run_handler. simpl. fold data.
    apply calls_try_except_prefix. rewrite bind_self. apply calls_bind_prefix.
    destruct (truthy data); rewrite call_eq; by eexists.
Qed.

(** [ping] requested with [x=1] is called with that dictionary. *)
Lemma handler_called_by_truth_of_data_sample :
  ∃ rest,
    calls_of (run_task (task_for "ping" handle_ping ping_x_items) alice)
    = Call "handle_ping" [JObj [("x", JInt 1)]] :: rest.
Proof.
  refine (proj2 (handler_called_by_truth_of_data alice ping_x_items "ping" handle_ping
                   _ _ _) alice);
    reflexivity.
Defined.

(** [ping] returns a non-empty dictionary; run for a request without a
    nonce, it is called and no reply is published. *)
Lemma reply_needs_nonce :
  truthy pong = true
  ∧ body handle_ping [] = Return pong
  ∧ calls_of (_run_handler handle_ping JNull (JObj []) alice) = [Call "handle_ping" []]
  ∧ ¬ In (reply_envelope alice JNull pong)
         (calls_of (_run_handler handle_ping JNull (JObj []) alice)).
Proof.
  repeat split. intros [H|[]]. discriminate.
Qed.

(** C6, as the code has it: when the handler returns [r] and Redis takes
    the publish, the invocation publishes a reply with the request's
    [nonce], [sender] this instance's identity and [data] equal to [r] if
    both [r] and the request's [nonce] are truthy; with a falsy result
    ([None], [False], zero, or empty) or without a nonce nothing is
    published. *)
Theorem handler_result_is_replied (st : IPC) (h : Handler) (nonce message r : JSON) :
  body h (if truthy message then [message] else []) = Return r →
  connected (redis st) = true →
  _run_handler h nonce message st
  = (st,
     Call (qualname h) (if truthy message then [message] else [])
       :: (if truthy r && truthy nonce then [reply_envelope st nonce r] else []),
     Return tt).
Proof.
  intros Hr Hup. unfold _run_handler, call, redis_publish, reply_envelope. run. simpl.
  destruct (truthy message); simpl; rewrite Hr; simpl;
    destruct (truthy r && truthy nonce); simpl; by rewrite ?Hup.
Qed.

(** [ping] run for a request with nonce [n1] publishes its reply. *)
Lemma handler_result_is_replied_sample :
  _run_handler handle_ping (JStr "n1") (JObj []) alice
  = (alice, [Call "handle_ping" []; reply_envelope alice (JStr "n1") pong], Return tt).
Proof.
  apply (handler_result_is_replied alice handle_ping (JStr "n1") (JObj []) pong);
    reflexivity.
Defined.

(** ** Routers *)

Lemma register_methods_cons (method : string) (f : Callable)
    (attrs : list (string * Callable)) (hs : gmap string Handler) :
  register_methods ((method, f) :: attrs) hs
  = register_methods attrs
      (if startswith "handle_" method then <[replace_handle method := f]> hs else hs).
Proof. reflexivity. Qed.

Lemma register_methods_app (pre post : list (string * Callable))
    (hs : gmap string Handler) :
  register_methods (pre ++ post) hs = register_methods post (register_methods pre hs).
Proof. unfold register_methods. apply foldl_app. Qed.

(** A name no method of the router maps to keeps its handler. *)
Lemma register_methods_other (attrs : list (string * Callable))
    (hs : gmap string Handler) (name : string) :
  ¬ exposes attrs name →
  register_methods attrs hs !! name = hs !! name.
Proof.
  revert hs. induction attrs as [|[method f] attrs IH]; intros hs Hno; [done|].
  rewrite register_methods_cons, IH.
  - destruct (startswith "handle_" method) eqn:Hs; [|done].
    apply lookup_insert_ne. intros Heq. apply Hno.
    exists method, f. repeat split; [by left|done|done].
  - intros (m' & f' & Hin & Hs' & Hn). apply Hno.
    exists m', f'. repeat split; [by right|done|done].
Qed.

Lemma register_methods_keeps (attrs : list (string * Callable))
    (hs : gmap string Handler) (name : string) :
  is_Some (hs !! name) → is_Some (register_methods attrs hs !! name).
Proof.
  revert hs. induction attrs as [|[method f] attrs IH]; intros hs Hin; [done|].
  rewrite register_methods_cons. apply IH.
  destruct (startswith "handle_" method); [|done].
  rewrite lookup_insert. case_decide; [by eexists|done].
Qed.

(** Attaching [stats_router] to [alice] does not call its
    [router_load]. *)
Lemma router_load_not_invoked : ¬ load_hook_invoked stats_router alice.
Proof.
  intros (hook & _ & Hcall). vm_compute in Hcall. exact Hcall.
Qed.

(** C8, as the code has it: [add_router] appends the router to
    [self.routers] and stores every attribute of the router whose name
    starts with [handle_] in [self.handlers] under that name with [handle_]
    cut out, a later attribute replacing an earlier one (and a handler
    registered before) of the same name, all other names keeping their
    handler; it calls nothing: [router_load] is not invoked. *)
Theorem add_router_copies_handlers (st : IPC) (router : IPCRouter) :
  let st' := state_of (add_router router st) in
  calls_of (add_router router st) = []
  ∧ result_of (add_router router st) = Return tt
  ∧ routers st' = routers st ++ [router]
  ∧ (∀ method f, In (method, f) (router_dir router) →
       startswith "handle_" method = true →
       is_Some (handlers st' !! replace_handle method))
  ∧ (∀ pre method f post,
       router_dir router = pre ++ (method, f) :: post →
       startswith "handle_" method = true →
       ¬ exposes post (replace_handle method) →
       handlers st' !! replace_handle method = Some f)
  ∧ (∀ name, ¬ exposes (router_dir router) name →
       handlers st' !! name = handlers st !! name).
Proof.
  cbv zeta. split; [done|]. split; [done|]. split; [done|]. split; [|split].
  - intros method f Hin Hs. unfold add_router. run. simpl.
    apply in_split in Hin as (pre & post & ->).
    rewrite register_methods_app, register_methods_cons, Hs.
    apply register_methods_keeps. rewrite lookup_insert_eq. by eexists.
  - intros pre method f post Hdir Hs Hlast. unfold add_router. run. simpl.
    rewrite Hdir, register_methods_app, register_methods_cons, Hs.
    rewrite register_methods_other by done. apply lookup_insert_eq.
  - intros name Hno. unfold add_router. run. simpl.
    by apply register_methods_other.
Qed.

(** [handle_stats] of [stats_router] is registered as [stats]. *)
Lemma add_router_copies_handlers_sample :
  handlers (state_of (add_router stats_router alice)) !! "stats"
  = Some (def0 "StatsRouter.handle_stats" (Return (JInt 7))).
Proof.
  refine (proj1 (proj2 (proj2 (proj2 (proj2 (add_router_copies_handlers alice stats_router)))))
            [] "handle_stats" _
            [("router_load", def0 "StatsRouter.router_load" (Raise (Exception "load")));
             ("router_unload", router_unload)] _ _ _).
  - reflexivity.
  - reflexivity.
  - intros (method & f & Hin & Hs & _). simpl in Hin.
    destruct Hin as [Hin | [Hin | []]]; inversion Hin; subst; discriminate.
Defined.

(** ** The empty required identity *)

(** C10: [publish] and [get] called with [required_identity=""] do what
    they do without it, and the envelope they publish has no
    [required_identity] field; the loop schedules a request whose
    [required_identity] is the empty string for its handler, as it does for
    one without the field. *)
Theorem empty_required_identity_is_absent :
  (∀ st op nonce data,
     publish op (Some "") nonce data st = publish op None nonce data st)
  ∧ (∀ st op timeout data entropy susp,
       get op timeout (Some "") data entropy susp st
       = get op timeout None data entropy susp st)
  ∧ (∀ st op nonce data chan items,
       In (Publish chan (Encoded (JObj items)))
          (calls_of (publish op (Some "") nonce data st)) →
       dict_has "required_identity" items = false)
  ∧ (∀ st items o h,
       dict_get "op" items = JStr o →
       dict_get "required_identity" items = JStr "" →
       handlers st !! o = Some h →
       on_message (data_message items) st
       = (schedule (task_for o h items) st, [], Return tt)).
Proof.
  split; [done|]. split; [done|]. split.
  - intros st op nonce data chan items. unfold publish, redis_publish, json_dumps. run.
    simpl. destruct (connected (redis st)); simpl; [|done].
    intros [H|[]]. injection H as _ <-.
    destruct nonce as [n|]; simpl; [|done]. by destruct (negb (n =? "")%string).
  - intros st items o h Hop Hrid Hh.
    rewrite (on_message_request st items o h) by done. by rewrite Hrid.
Qed.

(** [alice] schedules [ping] for the request whose [required_identity] is
    the empty string. *)
Lemma empty_required_identity_is_absent_sample :
  on_message (data_message ping_anyone_items) alice
  = (schedule (task_for "ping" handle_ping ping_anyone_items) alice, [], Return tt).
Proof.
  refine (proj2 (proj2 (proj2 empty_required_identity_is_absent))
            alice ping_anyone_items "ping" handle_ping _ _ _);
    reflexivity.
Defined.

(** * Further properties *)

(** ** random_hex *)

Lemma hex_length (bs : list byte) : String.length (hex bs) = 2 * length bs.
Proof. induction bs as [|b bs IH]; simpl; [done|]. rewrite IH. lia. Qed.

Lemma fromhex_byte (b : byte) (s : string) :
  fromhex (String (hex_digit (Byte.to_N b / 16))
             (String (hex_digit (Byte.to_N b mod 16)) s))
  = match fromhex s with Some bs => Some (b :: bs) | None => None end.
Proof. destruct b; reflexivity. Qed.

Lemma fromhex_hex (bs : list byte) : fromhex (hex bs) = Some bs.
Proof.
  induction bs as [|b bs IH]; [done|].
  change (hex (b :: bs)) with
    (String (hex_digit (Byte.to_N b / 16))
       (String (hex_digit (Byte.to_N b mod 16)) (hex bs))).
  by rewrite fromhex_byte, IH.
Qed.

(** X1: a token has two characters for each of the bytes [os.urandom] gave,
    and reading it back with [bytes.fromhex] gives those bytes. *)
Theorem token_reads_back (_bytes : nat) (entropy : list byte) :
  String.length (token _bytes entropy) = 2 * (_bytes `min` length entropy)
  ∧ fromhex (token _bytes entropy) = Some (take _bytes entropy).
Proof.
  unfold token. split; [|apply fromhex_hex].
  by rewrite hex_length, length_take.
Qed.

(** X2: random bytes that differ give tokens that differ. *)
Theorem tokens_distinct (_bytes : nat) (entropy entropy' : list byte) :
  take _bytes entropy ≠ take _bytes entropy' →
  token _bytes entropy ≠ token _bytes entropy'.
Proof.
  intros Hne Heq. apply Hne.
  pose proof (fromhex_hex (take _bytes entropy)) as H1.
  pose proof (fromhex_hex (take _bytes entropy')) as H2.
  unfold token in Heq. rewrite Heq in H1. congruence.
Qed.

Lemma tokens_distinct_sample : token 16 entropy0 ≠ token 16 entropy1.
Proof. apply (tokens_distinct 16 entropy0 entropy1). vm_compute. discriminate. Defined.

Lemma token_truthy (_bytes : nat) (entropy : list byte) :
  0 < _bytes → entropy ≠ [] → truthy (JStr (token _bytes entropy)) = true.
Proof.
  intros Hn He. destruct entropy as [|b bs]; [done|].
  destruct _bytes as [|k]; [lia|]. reflexivity.
Qed.

(** ** __init__ *)

(** X3: the identity of a new instance is never the empty string: a
    non-empty identity given to the constructor is kept, and without one,
    or with the empty string, the identity is a fresh token. *)
Theorem init_identity (cls : string) (pool : Redis) (ev : EventLoop) (chan : string)
    (ident : option string) (eh : option ErrorHandler)
    (self_dir : list (string * Callable)) (entropy : list byte) :
  entropy ≠ [] →
  let st := init cls pool ev chan ident eh self_dir entropy in
  identity st ≠ ""
  ∧ (∀ s, ident = Some s → s ≠ "" → identity st = s)
  ∧ (ident = None ∨ ident = Some "" → identity st = token 16 entropy).
Proof.
  intros He. simpl. split; [|split].
  - destruct ident as [[|c s]|]; simpl; try done;
      destruct entropy as [|b bs]; done.
  - intros s -> Hs. by destruct s.
  - by intros [-> | ->].
Qed.

Lemma init_identity_sample :
  identity (init "IPC" {| connected := true |} {| futures := ∅; tasks := [] |} "ipc:1"
                 (Some "") None [] entropy0)
  = token 16 entropy0.
Proof.
  refine (proj2 (proj2 (init_identity "IPC" {| connected := true |}
                          {| futures := ∅; tasks := [] |} "ipc:1" (Some "") None []
                          entropy0 _)) _).
  - discriminate.
  - by right.
Defined.

Lemma register_methods_is_Some (attrs : list (string * Callable))
    (hs : gmap string Handler) (name : string) :
  is_Some (register_methods attrs hs !! name) ↔ is_Some (hs !! name) ∨ exposes attrs name.
Proof.
  revert hs. induction attrs as [|[method f] attrs IH]; intros hs.
  - split; [by left|]. intros [H|(m & f & [] & _)]. done.
  - rewrite register_methods_cons, IH. split.
    + intros [Hs | (m & g & Hin & Hm & Hn)].
      * destruct (startswith "handle_" method) eqn:E; [|by left].
        rewrite lookup_insert in Hs. case_decide; [|by left].
        right. exists method, f. repeat split; [by left|done|done].
      * right. exists m, g. repeat split; [by right|done|done].
    + intros [Hs | (m & g & [Hin|Hin] & Hm & Hn)].
      * left. destruct (startswith "handle_" method); [|done].
        rewrite lookup_insert. case_decide; [by eexists|done].
      * inversion Hin; subst. left. rewrite Hm, lookup_insert_eq. by eexists.
      * right. exists m, g. done.
Qed.

(** X4: a new instance is not started and has no pending call, and its
    registry holds exactly the names of its own [handle_] methods, with
    [handle_] cut out. *)
Theorem init_registry (cls : string) (pool : Redis) (ev : EventLoop) (chan : string)
    (ident : option string) (eh : option ErrorHandler)
    (self_dir : list (string * Callable)) (entropy : list byte) :
  let st := init cls pool ev chan ident eh self_dir entropy in
  channel st = None ∧ nonces st = ∅ ∧ routers st = []
  ∧ ∀ name, is_Some (handlers st !! name) ↔ exposes self_dir name.
Proof.
  simpl. repeat split; try done.
  - intros Hs. apply register_methods_is_Some in Hs as [Hs|Hs]; [|done].
    rewrite lookup_empty in Hs. by destruct Hs.
  - intros He. apply register_methods_is_Some. by right.
Qed.

(** X5: on a new instance [get] raises the [RuntimeError] that names the
    class and asks for [start], whereas [publish] goes out: only [get]
    needs the loop. *)
Theorem new_instance_cannot_get (cls : string) (ev : EventLoop) (chan : string)
    (ident : option string) (eh : option ErrorHandler)
    (self_dir : list (string * Callable)) (entropy entropy' : list byte)
    (op : string) (timeout : Z) (required_identity : option string)
    (data : list (string * JSON)) (susp : Suspension) :
  let st := init cls {| connected := true |} ev chan ident eh self_dir entropy in
  get op timeout required_identity data entropy' susp st
  = (st, [], Raise (RuntimeError ("Must run " +:+ cls +:+ ".start to use this method!")))
  ∧ result_of (publish op required_identity None data st) = Return tt
  ∧ ∃ payload, calls_of (publish op required_identity None data st) = [Publish chan payload].
Proof.
  simpl. split; [done|]. split; [done|]. by eexists.
Qed.

(** ** add_handler and remove_handler *)

(** A request for an operation that has no handler is dropped. *)
Lemma on_message_unroutable (st : IPC) (items : list (string * JSON)) (o : string) :
  dict_get "op" items = JStr o →
  handlers st !! o = None →
  on_message (data_message items) st = (st, [], Return tt).
Proof.
  intros Hop Hh. unfold on_message, data_message, message_get, key_in, key_get.
  run. simpl. rewrite Hop. simpl. by rewrite Hh.
Qed.

(** X6: [add_handler] puts the function under the name, whatever was there
    before, and touches no other name; from then on the loop schedules it
    for the requests that carry this name in [op] and are addressed to
    anyone or to this instance. *)
Theorem added_handler_is_dispatched (st : IPC) (name : string) (func : Handler)
    (items : list (string * JSON)) :
  dict_get "op" items = JStr name →
  truthy (dict_get "required_identity" items)
    && ne_str (dict_get "required_identity" items) (identity st) = false →
  let st' := state_of (add_handler name func st) in
  add_handler name func st = (st', [], Return tt)
  ∧ handlers st' !! name = Some func
  ∧ (∀ other, other ≠ name → handlers st' !! other = handlers st !! other)
  ∧ on_message (data_message items) st'
    = (schedule (task_for name func items) st', [], Return tt).
Proof.
  intros Hop Hrid. cbv zeta.
  assert (Hnew : handlers (state_of (add_handler name func st)) !! name = Some func)
    by apply lookup_insert_eq.
  split; [done|]. split; [done|]. split.
  - intros other Hne. by apply lookup_insert_ne.
  - rewrite (on_message_request _ items name func) by done.
    change (identity (state_of (add_handler name func st))) with (identity st).
    by rewrite Hrid.
Qed.

Lemma added_handler_is_dispatched_sample :
  handlers (state_of (add_handler "ping" handle_echo alice)) !! "ping" = Some handle_echo.
Proof.
  refine (proj1 (proj2 (added_handler_is_dispatched alice "ping" handle_echo ping_items
                          _ _)));
    reflexivity.
Defined.

(** X7: once [remove_handler] has removed a name, the loop drops the
    requests for it: nothing is scheduled and nothing is raised. *)
Theorem removed_handler_is_unroutable (st : IPC) (name : string)
    (items : list (string * JSON)) :
  is_Some (handlers st !! name) →
  dict_get "op" items = JStr name →
  let st' := state_of (remove_handler name st) in
  result_of (remove_handler name st) = Return tt
  ∧ on_message (data_message items) st' = (st', [], Return tt).
Proof.
  intros [h Hh] Hop. cbv zeta.
  assert (Hrun : remove_handler name st
                 = (with_handlers (delete name (handlers st)) st, [], Return tt)).
  { unfold remove_handler. run. by rewrite Hh. }
  rewrite Hrun. split; [done|].
  apply on_message_unroutable with name; [done|]. apply lookup_delete_eq.
Qed.

Lemma removed_handler_is_unroutable_sample :
  on_message (data_message ping_items) (state_of (remove_handler "ping" alice))
  = (state_of (remove_handler "ping" alice), [], Return tt).
Proof.
  refine (proj2 (removed_handler_is_unroutable alice "ping" ping_items _ _)).
  - eexists. reflexivity.
  - reflexivity.
Defined.

Lemma with_handlers_same (st : IPC) : with_handlers (handlers st) st = st.
Proof. by destruct st. Qed.

(** X8: adding a handler under a name that was free and removing it again
    gives back the instance as it was. *)
Theorem add_then_remove_handler (st : IPC) (name : string) (func : Handler) :
  handlers st !! name = None →
  remove_handler name (state_of (add_handler name func st)) = (st, [], Return tt).
Proof.
  intros Hfree. unfold remove_handler, add_handler. run. simpl.
  rewrite lookup_insert_eq. simpl.
  rewrite delete_insert_eq, delete_id by done.
  unfold with_handlers. simpl. by destruct st.
Qed.

Lemma add_then_remove_handler_sample :
  remove_handler "stats" (state_of (add_handler "stats" handle_ping alice))
  = (alice, [], Return tt).
Proof. apply (add_then_remove_handler alice "stats" handle_ping). reflexivity. Defined.

(** ** publish *)

(** The envelope [publish] sends, field by field. *)
Lemma publish_envelope_fields (st : IPC) (op : string) (required_identity nonce : option string)
    (data : list (string * JSON)) :
  (connected (redis st) = true →
     ∃ items,
       publish op required_identity nonce data st
       = (st, [Publish (channel_address st) (Encoded (JObj items))], Return tt)
       ∧ dict_get "op" items = JStr op
       ∧ dict_get "data" items = JObj data
       ∧ dict_get "sender" items = JStr (identity st)
       ∧ dict_has "nonce" items = truthy (opt_str nonce)
       ∧ dict_get "nonce" items = (if truthy (opt_str nonce) then opt_str nonce else JNull)
       ∧ dict_has "required_identity" items = truthy (opt_str required_identity)
       ∧ dict_get "required_identity" items
         = (if truthy (opt_str required_identity) then opt_str required_identity
            else JNull))
  ∧ (connected (redis st) = false →
     publish op required_identity nonce data st = (st, [], Raise ConnectionError)).
Proof.
  split; intros Hup; unfold publish, redis_publish, json_dumps; run; simpl; rewrite Hup;
    [|done].
  destruct nonce as [[|c n]|], required_identity as [[|c' r]|]; simpl;
    eexists; repeat split; reflexivity.
Qed.

(** X9: with Redis up, [publish] sends one envelope on the channel of the
    instance and leaves the instance as it is; the envelope carries [op],
    the keyword arguments as [data], the identity as [sender], and [nonce]
    and [required_identity] exactly when they are given and not empty.
    With Redis down it raises [ConnectionError] and sends nothing. *)
Theorem publish_envelope (st : IPC) (op : string) (required_identity nonce : option string)
    (data : list (string * JSON)) :
  (connected (redis st) = true →
     ∃ items,
       publish op required_identity nonce data st
       = (st, [Publish (channel_address st) (Encoded (JObj items))], Return tt)
       ∧ dict_get "op" items = JStr op
       ∧ dict_get "data" items = JObj data
       ∧ dict_get "sender" items = JStr (identity st)
       ∧ dict_has "nonce" items = truthy (opt_str nonce)
       ∧ dict_get "nonce" items = (if truthy (opt_str nonce) then opt_str nonce else JNull)
       ∧ dict_has "required_identity" items = truthy (opt_str required_identity)
       ∧ dict_get "required_identity" items
         = (if truthy (opt_str required_identity) then opt_str required_identity
            else JNull))
  ∧ (connected (redis st) = false →
     publish op required_identity nonce data st = (st, [], Raise ConnectionError)).
Proof. apply publish_envelope_fields. Qed.

Lemma publish_envelope_sample :
  publish "ping" None (Some "n1") [] (with_redis {| connected := false |} alice)
  = (with_redis {| connected := false |} alice, [], Raise ConnectionError).
Proof.
  apply (proj2 (publish_envelope (with_redis {| connected := false |} alice)
                  "ping" None (Some "n1") [])).
  reflexivity.
Defined.

(** X10: what [publish] sends is a request the loop of any instance that
    has a handler for [op] schedules, unless it is addressed to someone
    else: the task gets the keyword arguments as its message and the nonce,
    if one was given.  The receiver may be the sender itself. *)
Theorem published_request_is_scheduled (sender receiver : IPC) (op : string)
    (required_identity nonce : option string) (data : list (string * JSON))
    (h : Handler) :
  connected (redis sender) = true →
  handlers receiver !! op = Some h →
  truthy (opt_str required_identity) = false
    ∨ required_identity = Some (identity receiver) →
  ∃ payload,
    calls_of (publish op required_identity nonce data sender)
    = [Publish (channel_address sender) payload]
    ∧ on_message {| msg_type := "message"; msg_data := payload |} receiver
      = (schedule {| task_name := "redis-ipc: " +:+ op;
                     task_handler := h;
                     task_nonce := if truthy (opt_str nonce) then opt_str nonce else JNull;
                     task_message := JObj data |} receiver,
         [], Return tt).
Proof.
  intros Hup Hh Hrid.
  destruct (proj1 (publish_envelope_fields sender op required_identity nonce data) Hup)
    as (items & Hpub & Hop & Hdata & _ & _ & Hnonce & _ & Hreq).
  exists (Encoded (JObj items)). rewrite Hpub. split; [done|].
  change {| msg_type := "message"; msg_data := Encoded (JObj items) |}
    with (data_message items).
  rewrite (on_message_request receiver items op h) by done.
  unfold task_for. rewrite Hreq, Hnonce, Hdata.
  destruct Hrid as [-> | ->]; [done|].
  destruct (truthy (opt_str (Some (identity receiver)))); [|done].
  simpl. rewrite String.eqb_refl. simpl. by rewrite andb_false_r.
Qed.

Lemma published_request_is_scheduled_sample :
  ∃ payload,
    calls_of (publish "ping" None (Some "n1") [] alice) = [Publish "ipc:1" payload]
    ∧ on_message {| msg_type := "message"; msg_data := payload |} bob
      = (schedule {| task_name := "redis-ipc: ping"; task_handler := handle_ping;
                     task_nonce := JStr "n1"; task_message := JObj [] |} bob,
         [], Return tt).
Proof.
  apply (published_request_is_scheduled alice bob "ping" None (Some "n1") [] handle_ping).
  - reflexivity.
  - reflexivity.
  - by left.
Defined.

(** ** The dispatch loop: what it drops and what ends it *)

(** A message without [op] that is not a reply to a pending call of this
    instance from someone else is dropped: [self.handlers.get(None)] finds
    nothing. *)
Lemma on_message_no_op (st : IPC) (items : list (string * JSON)) :
  dict_get "op" items = JNull →
  dict_get "sender" items = JStr (identity st)
  ∨ dict_get "nonce" items = JNull
  ∨ (∃ n, dict_get "nonce" items = JStr n ∧ nonces st !! n = None) →
  on_message (data_message items) st = (st, [], Return tt).
Proof.
  intros Hop Hcase.
  unfold on_message, data_message, message_get, key_in, key_get. run. simpl.
  rewrite Hop. simpl.
  destruct Hcase as [Hs | [Hn | (n & Hn & Hslot)]].
  - rewrite Hs. simpl. rewrite String.eqb_refl. reflexivity.
  - rewrite Hn. simpl. rewrite andb_false_r. reflexivity.
  - rewrite Hn. simpl. rewrite Hslot.
    by destruct (ne_str (dict_get "sender" items) (identity st)).
Qed.

(** X11: a reply whose [sender] is this instance's own identity is
    dropped, even when its [nonce] has a pending slot: the slot stays as
    it is, so that an instance never answers its own call. *)
Theorem own_reply_is_ignored (st : IPC) (items : list (string * JSON)) :
  dict_get "op" items = JNull →
  dict_get "sender" items = JStr (identity st) →
  on_message (data_message items) st = (st, [], Return tt).
Proof. intros Hop Hs. apply on_message_no_op; [done|by left]. Qed.

Lemma own_reply_is_ignored_sample :
  on_message
    (data_message [("nonce", JStr (token 16 entropy0)); ("sender", JStr "a");
                   ("data", pong)])
    alice_waiting
  = (alice_waiting, [], Return tt).
Proof.
  apply (own_reply_is_ignored alice_waiting
           [("nonce", JStr (token 16 entropy0)); ("sender", JStr "a"); ("data", pong)]);
    reflexivity.
Defined.

Lemma get_state (st : IPC) (op : string) (timeout : Z)
    (required_identity : option string) (data : list (string * JSON))
    (entropy : list byte) (susp : Suspension) :
  is_Some (channel st) →
  state_of (get op timeout required_identity data entropy susp st)
  = state_of (del_nonce (token 16 entropy)
      (state_of ((publish_from_get op required_identity (token 16 entropy) data;;
                  wait_for (fresh (dom (futures (loop st)))) timeout susp)
                 (registered entropy st)))).
Proof.
  intros Hc. rewrite get_started by done.
  rewrite <- state_of_try_finally.
  by destruct (try_finally _ _ _) as [[st2 t2] r2].
Qed.

(** X12: a reply that comes after [get] has exited, by the timeout or
    otherwise, is dropped by the loop: the slot of its nonce is gone, and
    nothing is resolved, scheduled or raised. *)
Theorem late_reply_is_dropped (st : IPC) (op : string) (timeout : Z)
    (required_identity : option string) (data : list (string * JSON))
    (entropy : list byte) (susp : Suspension) (items : list (string * JSON)) :
  is_Some (channel st) →
  dict_get "op" items = JNull →
  dict_get "nonce" items = JStr (token 16 entropy) →
  let st' := state_of (get op timeout required_identity data entropy susp st) in
  on_message (data_message items) st' = (st', [], Return tt).
Proof.
  intros Hc Hop Hn. cbv zeta. apply on_message_no_op; [done|].
  right. right. exists (token 16 entropy). split; [done|].
  rewrite get_state by done. apply del_nonce_absent.
Qed.

Lemma late_reply_is_dropped_sample :
  on_message (data_message (reply_items pong))
    (state_of (get "ping" 5 None [] entropy0 nobody_listens alice))
  = (state_of (get "ping" 5 None [] entropy0 nobody_listens alice), [], Return tt).
Proof.
  apply (late_reply_is_dropped alice "ping" 5 None [] entropy0 nobody_listens
           (reply_items pong)).
  - eexists. reflexivity.
  - reflexivity.
  - reflexivity.
Defined.

(** X13: a payload that decodes to something other than a dictionary, or
    to a dictionary whose [op] is a list or a dictionary, or to a reply of
    someone else whose [nonce] is a list or a dictionary, makes the loop
    raise ([AttributeError] for the first, [TypeError] for the others): it
    ends there and the messages that follow are not consumed. *)
Theorem malformed_envelope_ends_loop (st : IPC) (rest : list Event) :
  is_Some (channel st) →
  (∀ j, (∀ items, j ≠ JObj items) →
     listen_ipc (Message {| msg_type := "message"; msg_data := Encoded j |} :: rest) st
     = (st, [], Raise (AttributeError "object has no attribute 'get'")))
  ∧ (∀ items, hashable_field (dict_get "op" items) = false →
       listen_ipc (Message (data_message items) :: rest) st
       = (st, [], Raise (TypeError "unhashable type")))
  ∧ (∀ items, dict_get "op" items = JNull →
       ne_str (dict_get "sender" items) (identity st) = true →
       hashable_field (dict_get "nonce" items) = false →
       listen_ipc (Message (data_message items) :: rest) st
       = (st, [], Raise (TypeError "unhashable type"))).
Proof.
  intros Hc. split; [|split].
  - intros j Hj. rewrite listen_ipc_started by done.
    destruct j; try done. by destruct (Hj items).
  - intros items Hop. rewrite listen_ipc_started by done.
    unfold try_except, consume, on_message, data_message, message_get, key_in, key_get.
    run. simpl. by destruct (dict_get "op" items).
  - intros items Hop Hs Hn. rewrite listen_ipc_started by done.
    unfold try_except, consume, on_message, data_message, message_get, key_in, key_get.
    run. simpl. rewrite Hop, Hs. simpl. by destruct (dict_get "nonce" items).
Qed.

Lemma malformed_envelope_ends_loop_sample :
  listen_ipc [Message (data_message [("op", JList [])]);
              Message (data_message ping_items)] alice
  = (alice, [], Raise (TypeError "unhashable type")).
Proof.
  refine (proj1 (proj2 (malformed_envelope_ends_loop alice
            [Message (data_message ping_items)] _)) [("op", JList [])] _).
  - eexists. reflexivity.
  - reflexivity.
Defined.

(** ** The dispatch loop: what it keeps *)

Lemma bind_skip {A B} (m : M A) (k : A → M B) (st : IPC) (a : A) :
  m st = (st, [], Return a) → bind m k st = k a st.
Proof. intros Hm. run. rewrite Hm. by destruct (k a st) as [[st2 t2] r]. Qed.

Lemma consume_skip (msgs : list RawMsg) (rest : list Event) (st : IPC) :
  Forall (fun m => msg_type m ≠ "message") msgs →
  consume (map Message msgs ++ rest) st = consume rest st.
Proof.
  induction 1 as [|m msgs Hm _ IH]; [done|]. simpl.
  rewrite (bind_skip _ _ st tt); [done|].
  destruct m as [ty p]. by apply control_message_skipped.
Qed.

(** X14: messages of a type other than [message], such as the
    acknowledgment of the subscription, are skipped whatever their payload:
    the loop goes on as if they had not been there. *)
Theorem control_messages_are_skipped (msgs : list RawMsg) (rest : list Event) (st : IPC) :
  Forall (fun m => msg_type m ≠ "message") msgs →
  listen_ipc (map Message msgs ++ rest) st = listen_ipc rest st.
Proof.
  intros Hctl. unfold listen_ipc, try_except. unfold bind at 1 3.
  destruct (ensure_channel st) as [[st1 t1] [[]|e]]; [|done].
  unfold bind, self. simpl.
  destruct (channel st1); [|done]. by rewrite consume_skip.
Qed.

Lemma control_messages_are_skipped_sample :
  listen_ipc [Message subscribe_ack; Message (data_message ping_items)] carol
  = listen_ipc [Message (data_message ping_items)] carol.
Proof.
  apply (control_messages_are_skipped [subscribe_ack] [Message (data_message ping_items)]
           carol).
  repeat constructor. discriminate.
Defined.

(** The loop body calls nothing outside. *)
Lemma on_message_calls (msg : RawMsg) (st : IPC) : calls_of (on_message msg st) = [].
Proof.
  unfold on_message, message_get, key_in, key_get, set_result, create_task. run.
  repeat (case_match; simpl in *; simplify_eq; try done).
Qed.

Lemma consume_calls (events : list Event) (st : IPC) : calls_of (consume events st) = [].
Proof.
  revert st. induction events as [|[msg|] rest IH]; intros st; simpl; [done| |done].
  unfold bind. pose proof (on_message_calls msg st) as Hc.
  destruct (on_message msg st) as [[st1 t1] [[]|e]]; unfold calls_of in *; simpl in *;
    subst t1; [|done].
  specialize (IH st1). by destruct (consume rest st1) as [[st2 t2] r].
Qed.

(** The only call [listen_ipc] makes on a subscribed instance. *)
Lemma listen_ipc_calls (events : list Event) (st : IPC) (c : Effect) :
  is_Some (channel st) →
  In c (calls_of (listen_ipc events st)) →
  c = Unsubscribe (channel_address st).
Proof.
  intros Hc. rewrite listen_ipc_started by done. unfold try_except.
  pose proof (consume_calls events st) as Hcalls.
  pose proof (consume_keeps_self events st) as (_ & _ & Hch & _ & _ & Haddr).
  destruct (consume events st) as [[st1 t1] [a|e]]; unfold calls_of, state_of in *;
    simpl in *; subst t1; [done|].
  unfold except_cancelled, pubsub_unsubscribe. run.
  destruct e; simpl; try done.
  destruct (channel st1); simpl; [|done].
  destruct (connected (redis st1)); simpl; [|done].
  rewrite Haddr. by intros [<-|[]].
Qed.

(** X15: the loop itself never calls a handler or the error handler and
    never publishes: on an instance that is subscribed, the only call it
    can make is the [unsubscribe] of its channel, on cancellation. *)
Theorem loop_runs_no_handler (events : list Event) (st : IPC) (c : Effect) :
  is_Some (channel st) →
  In c (calls_of (listen_ipc events st)) →
  c = Unsubscribe (channel_address st).
Proof. apply listen_ipc_calls. Qed.

Lemma loop_runs_no_handler_sample :
  List.Forall (fun c => c = Unsubscribe "ipc:1")
    (calls_of (listen_ipc [Message (data_message ping_items); Cancel] alice)).
Proof.
  apply List.Forall_forall. intros c Hin.
  apply (loop_runs_no_handler [Message (data_message ping_items); Cancel] alice c).
  - eexists. reflexivity.
  - exact Hin.
Defined.

Lemma consume_cancel (events rest : list Event) (st : IPC) :
  result_of (consume events st) = Return Listening →
  consume (events ++ Cancel :: rest) st
  = (state_of (consume events st), [], Raise CancelledError).
Proof.
  revert st. induction events as [|[msg|] more IH]; intros st Hr; simpl; [done| |done].
  simpl in Hr. unfold bind in *.
  pose proof (on_message_calls msg st) as Hc.
  destruct (on_message msg st) as [[st1 t1] [[]|e]]; unfold calls_of in Hc; simpl in *;
    subst t1; [|done].
  specialize (IH st1).
  destruct (consume more st1) as [[st2 t2] r] eqn:E. unfold result_of, state_of in *.
  simpl in *. by rewrite IH.
Qed.

(** X16: when the listening task is cancelled, on an instance that is
    subscribed and whose Redis is up, [listen_ipc] unsubscribes from its
    channel and returns without raising; the messages handled before stay
    handled and those that follow the cancellation are not consumed. *)
Theorem cancelled_loop_unsubscribes (st : IPC) (ps : PubSub) (events rest : list Event) :
  channel st = Some ps →
  connected (redis st) = true →
  result_of (consume events st) = Return Listening →
  listen_ipc (events ++ Cancel :: rest) st
  = (with_channel
       (Some {| subscribed :=
                  filter (fun c => negb (String.eqb c (channel_address st))) (subscribed ps) |})
       (state_of (consume events st)),
     [Unsubscribe (channel_address st)], Return Exited).
Proof.
  intros Hc Hup Hr. rewrite listen_ipc_started by (by eexists).
  unfold try_except. rewrite consume_cancel by done.
  pose proof (consume_keeps_self events st) as (_ & _ & Hch & _ & Hredis & Haddr).
  unfold except_cancelled, pubsub_unsubscribe. run. simpl in *.
  rewrite Hch, Hc, Hredis, Hup. simpl. by rewrite Hch, Hc, Haddr.
Qed.

Lemma cancelled_loop_unsubscribes_sample :
  listen_ipc [Message (data_message ping_items); Cancel; Message garbled_message] alice
  = (with_channel (Some {| subscribed := [] |})
       (schedule (task_for "ping" handle_ping ping_items) alice),
     [Unsubscribe "ipc:1"], Return Exited).
Proof.
  apply (cancelled_loop_unsubscribes alice {| subscribed := ["ipc:1"] |}
           [Message (data_message ping_items)] [Message garbled_message]);
    reflexivity.
Defined.

Lemma same_setup_refl (st : IPC) : same_setup st st.
Proof. by repeat split. Qed.

Lemma same_setup_trans (st1 st2 st3 : IPC) :
  same_setup st1 st2 → same_setup st2 st3 → same_setup st1 st3.
Proof.
  unfold same_setup. intros (? & ? & ? & ? & ? & ? & ? & ?) (? & ? & ? & ? & ? & ? & ? & ?).
  repeat split; congruence.
Qed.

Lemma on_message_setup (msg : RawMsg) (st : IPC) :
  same_setup st (state_of (on_message msg st))
  ∧ ∃ new, tasks (loop (state_of (on_message msg st))) = tasks (loop st) ++ new.
Proof.
  destruct (on_message_state msg st) as [-> | [(fut & d & _ & ->) | [t ->]]].
  - split; [apply same_setup_refl|]. exists []. by rewrite app_nil_r.
  - split; [by repeat split|]. exists []. by rewrite app_nil_r.
  - split; [by repeat split|]. by exists [t].
Qed.

Lemma consume_setup (events : list Event) (st : IPC) :
  same_setup st (state_of (consume events st))
  ∧ ∃ new, tasks (loop (state_of (consume events st))) = tasks (loop st) ++ new.
Proof.
  revert st. induction events as [|[msg|] rest IH]; intros st; simpl.
  - split; [apply same_setup_refl|]. exists []. by rewrite app_nil_r.
  - unfold bind. pose proof (on_message_setup msg st) as [Hs [new Hn]].
    destruct (on_message msg st) as [[st1 t1] [[]|e]]; unfold state_of in *; simpl in *.
    + destruct (IH st1) as [Hs' [new' Hn']].
      destruct (consume rest st1) as [[st2 t2] r]. simpl in *. split.
      * by apply same_setup_trans with st1.
      * exists (new ++ new'). by rewrite Hn', Hn, app_assoc.
    + split; [done|]. by exists new.
  - split; [apply same_setup_refl|]. exists []. by rewrite app_nil_r.
Qed.

Lemma ensure_channel_setup (st : IPC) :
  same_setup st (state_of (ensure_channel st))
  ∧ loop (state_of (ensure_channel st)) = loop st.
Proof.
  unfold ensure_channel, pubsub_subscribe. run.
  destruct (channel st); simpl; [by repeat split|].
  destruct (connected (redis st)); simpl; by repeat split.
Qed.

Lemma except_cancelled_setup (e : Exn) (st : IPC) :
  same_setup st (state_of (except_cancelled e st)).
Proof.
  unfold except_cancelled, pubsub_unsubscribe. run.
  destruct e; simpl; try apply same_setup_refl.
  destruct (channel st) eqn:Hc; simpl; [|apply same_setup_refl].
  destruct (connected (redis st)); simpl; [|apply same_setup_refl].
  rewrite Hc. by repeat split.
Qed.

(** The state [listen_ipc] leaves, through its three stages. *)
Lemma listen_ipc_stages (events : list Event) (st : IPC) :
  ∃ st1 st2,
    same_setup st st1 ∧ loop st1 = loop st
    ∧ (st2 = st1 ∨ st2 = state_of (consume events st1))
    ∧ same_setup st2 (state_of (listen_ipc events st))
    ∧ loop (state_of (listen_ipc events st)) = loop st2.
Proof.
  remember (state_of (listen_ipc events st)) as final eqn:Hfinal.
  unfold listen_ipc, try_except, state_of in Hfinal. unfold bind at 1 in Hfinal.
  pose proof (ensure_channel_setup st) as [Hs Hl].
  destruct (ensure_channel st) as [[st1 t1] [[]|e]]; unfold state_of in Hs, Hl;
    simpl in Hs, Hl.
  - unfold bind, self in Hfinal. simpl in Hfinal. exists st1.
    destruct (channel st1) eqn:Hc.
    + exists (state_of (consume events st1)).
      destruct (consume events st1) as [[st2 t2] [a|e]]; unfold state_of;
        simpl in Hfinal |- *.
      * subst final. split; [done|]. split; [done|]. split; [by right|].
        split; [apply same_setup_refl|done].
      * pose proof (except_cancelled_setup e st2) as Hx.
        pose proof (except_cancelled_loop e st2) as [Hxl _].
        destruct (except_cancelled e st2) as [[st3 t3] r]. unfold state_of in *.
        simpl in *. subst final. split; [done|]. split; [done|]. split; [by right|].
        by split.
    + exists st1. simpl in Hfinal. subst final.
      split; [done|]. split; [done|]. split; [by left|].
      split; [apply same_setup_refl|done].
  - exists st1, st1.
    pose proof (except_cancelled_setup e st1) as Hx.
    pose proof (except_cancelled_loop e st1) as [Hxl _].
    destruct (except_cancelled e st1) as [[st3 t3] r]. unfold state_of in *. simpl in *.
    subst final. split; [done|]. split; [done|]. split; [by left|]. by split.
Qed.

(** X17: whatever it receives, [listen_ipc] leaves the registry, the
    table of pending calls, the routers, the identity and the error handler
    of the instance as they were, and only adds to the tasks of the event
    loop. *)
Theorem loop_keeps_setup (events : list Event) (st : IPC) :
  let st' := state_of (listen_ipc events st) in
  handlers st' = handlers st ∧ nonces st' = nonces st ∧ routers st' = routers st
  ∧ identity st' = identity st ∧ error_handler st' = error_handler st
  ∧ ∃ new, tasks (loop st') = tasks (loop st) ++ new.
Proof.
  cbv zeta.
  destruct (listen_ipc_stages events st) as (st1 & st2 & Hs1 & Hl1 & Hst2 & Hs3 & Hl3).
  assert (Hs2 : same_setup st1 st2 ∧ ∃ new, tasks (loop st2) = tasks (loop st1) ++ new).
  { destruct Hst2 as [-> | ->]; [|apply consume_setup].
    split; [apply same_setup_refl|]. exists []. by rewrite app_nil_r. }
  destruct Hs2 as [Hs2 [new Hnew]].
  pose proof (same_setup_trans _ _ _ (same_setup_trans _ _ _ Hs1 Hs2) Hs3)
    as (_ & _ & _ & ? & ? & ? & ? & ?).
  repeat split; try done. exists new. by rewrite Hl3, Hnew, Hl1.
Qed.

Lemma on_message_keeps_settled (msg : RawMsg) (st : IPC) (fut : nat) :
  future_state fut st ≠ Pending →
  future_state fut (state_of (on_message msg st)) = future_state fut st.
Proof.
  intros Hv.
  destruct (on_message_state msg st) as [-> | [(fut' & d & Hp & ->) | [t ->]]];
    [done| |done].
  rewrite future_state_set_ne; [done|]. intros ->. congruence.
Qed.

Lemma consume_keeps_settled (events : list Event) (st : IPC) (fut : nat) :
  future_state fut st ≠ Pending →
  future_state fut (state_of (consume events st)) = future_state fut st.
Proof.
  revert st. induction events as [|[msg|] rest IH]; intros st Hv; simpl; [done| |done].
  unfold bind.
  pose proof (on_message_keeps_settled msg st fut Hv) as Hstep.
  destruct (on_message msg st) as [[st1 t1] [[]|e]]; unfold state_of in *; simpl in *;
    [|done].
  assert (Hv1 : future_state fut st1 ≠ Pending) by congruence.
  specialize (IH st1 Hv1).
  destruct (consume rest st1) as [[st2 t2] r]. simpl in *. congruence.
Qed.

(** X18: a future that has its result, or that the timeout has cancelled,
    is final: whatever the loop receives afterwards, replies with the same
    nonce included, its state stays what it is. *)
Theorem settled_future_is_final (events : list Event) (st : IPC) (fut : nat) :
  future_state fut st ≠ Pending →
  future_state fut (state_of (listen_ipc events st)) = future_state fut st.
Proof.
  intros Hv.
  destruct (listen_ipc_stages events st) as (st1 & st2 & _ & Hl1 & Hst2 & _ & Hl3).
  unfold future_state in *. rewrite Hl3.
  destruct Hst2 as [-> | ->]; [by rewrite Hl1|].
  pose proof (consume_keeps_settled events st1 fut) as Hk. unfold future_state in Hk.
  rewrite Hk; by rewrite Hl1.
Qed.

Lemma settled_future_is_final_sample :
  future_state 0
    (state_of (listen_ipc [Message (data_message (reply_items (JInt 2)))]
                 (set_future 0 (Done pong) alice_waiting)))
  = Done pong.
Proof.
  apply (settled_future_is_final [Message (data_message (reply_items (JInt 2)))]
           (set_future 0 (Done pong) alice_waiting) 0).
  discriminate.
Defined.

(** ** _run_handler: failures *)

(** X19: when the handler does not return, [_run_handler] publishes
    nothing.  A cancellation is swallowed: the invocation ends normally.
    Any other exception goes, with the message the handler was run for, to
    the error handler, whose outcome is the outcome of the invocation; if
    there is no error handler the exception is raised again. *)
Theorem handler_failure_is_routed (st : IPC) (h : Handler) (nonce message : JSON) (e : Exn) :
  body h (if truthy message then [message] else []) = Raise e →
  let called := Call (qualname h) (if truthy message then [message] else []) in
  (e = CancelledError → _run_handler h nonce message st = (st, [called], Return tt))
  ∧ (e ≠ CancelledError → error_handler st = None →
     _run_handler h nonce message st = (st, [called], Raise e))
  ∧ (e ≠ CancelledError → ∀ eh, error_handler st = Some eh →
     _run_handler h nonce message st
     = (st, [called; CallErrorHandler e message], eh e message)).
Proof.
  intros He. cbv zeta.
  split; [|split]; unfold _run_handler, call, call_error_handler; run; simpl.
  - intros ->. by destruct (truthy message); simpl; rewrite He.
  - intros Hne Hno.
    destruct (truthy message); simpl; rewrite He; simpl;
      destruct e; simpl; try done; by rewrite Hno.
  - intros Hne eh Heh.
    destruct (truthy message); simpl; rewrite He; simpl;
      destruct e; simpl; try done; rewrite Heh; simpl; by destruct (eh _ _).
Qed.

Lemma handler_failure_is_routed_sample :
  _run_handler handle_slow (JStr "n1") (JObj []) alice
  = (alice, [Call "handle_slow" []], Return tt)
  ∧ _run_handler handle_fail (JStr "n1") (JObj []) alice
    = (alice, [Call "handle_fail" []], Raise (Exception "boom")).
Proof.
  split.
  - refine (proj1 (handler_failure_is_routed alice handle_slow (JStr "n1") (JObj [])
                     CancelledError _) _); reflexivity.
  - refine (proj1 (proj2 (handler_failure_is_routed alice handle_fail (JStr "n1") (JObj [])
                            (Exception "boom") _)) _ _); [reflexivity|discriminate|reflexivity].
Defined.

(** X20: when the reply cannot be published because Redis is down, the
    [ConnectionError] is handled like an exception of the handler: it goes
    to the error handler if there is one and is raised otherwise. *)
Theorem failed_reply_is_routed (st : IPC) (h : Handler) (nonce message r : JSON) :
  body h (if truthy message then [message] else []) = Return r →
  truthy r = true →
  truthy nonce = true →
  connected (redis st) = false →
  let called := Call (qualname h) (if truthy message then [message] else []) in
  (error_handler st = None →
     _run_handler h nonce message st = (st, [called], Raise ConnectionError))
  ∧ (∀ eh, error_handler st = Some eh →
     _run_handler h nonce message st
     = (st, [called; CallErrorHandler ConnectionError message],
        eh ConnectionError message)).
Proof.
  intros Hr Htr Htn Hdown. cbv zeta.
  split; [|intros eh]; intros Heh;
    unfold _run_handler, call, call_error_handler, redis_publish; run; simpl;
    destruct (truthy message); simpl; rewrite Hr; simpl; rewrite Htr, Htn; simpl;
    rewrite Hdown; simpl; rewrite Heh; simpl; try done; by destruct (eh _ _).
Qed.

Lemma failed_reply_is_routed_sample :
  _run_handler handle_ping (JStr "n1") (JObj [])
    (with_error_handler (Some log_error) (with_redis {| connected := false |} alice))
  = (with_error_handler (Some log_error) (with_redis {| connected := false |} alice),
     [Call "handle_ping" []; CallErrorHandler ConnectionError (JObj [])], Return tt).
Proof.
  refine (proj2 (failed_reply_is_routed
                   (with_error_handler (Some log_error)
                      (with_redis {| connected := false |} alice))
                   handle_ping (JStr "n1") (JObj []) pong _ _ _ _) log_error _);
    reflexivity.
Defined.

(** ** start and close *)

(** X21: on an instance that has no subscription yet and whose Redis is
    up, [start] subscribes to the channel of the instance, once, and then
    is the loop of the subscribed instance. *)
Theorem start_subscribes (st : IPC) (events : list Event) :
  channel st = None →
  connected (redis st) = true →
  start events st
  = match start events
            (with_channel (Some {| subscribed := [channel_address st] |}) st) with
    | (st', calls, r) => (st', Subscribe (channel_address st) :: calls, r)
    end.
Proof.
  intros Hc Hup. unfold start.
  rewrite (listen_ipc_started events (with_channel _ st)) by (by eexists).
  unfold listen_ipc, try_except, ensure_channel, pubsub_subscribe. run. simpl.
  rewrite Hc. simpl. rewrite Hup. simpl.
  destruct (consume events _) as [[st1 t1] [a|e]]; [done|].
  by destruct (except_cancelled e st1) as [[st2 t2] r].
Qed.

Lemma start_subscribes_sample :
  start [Message (data_message ping_items)] carol
  = (schedule (task_for "ping" handle_ping ping_items) alice,
     [Subscribe "ipc:1"], Return Listening).
Proof.
  rewrite (start_subscribes carol [Message (data_message ping_items)]); reflexivity.
Defined.





(** ** Routers and the loop *)

(** X24: once a router is attached, the loop schedules the router's
    method for the requests whose [op] is the method's name with [handle_]
    cut out, when no later method of the router takes the same name; a
    handler registered under that name before is replaced. *)
Theorem router_handler_is_dispatched (st : IPC) (router : IPCRouter)
    (pre post : list (string * Callable)) (method : string) (f : Callable)
    (items : list (string * JSON)) :
  router_dir router = pre ++ (method, f) :: post →
  startswith "handle_" method = true →
  ¬ exposes post (replace_handle method) →
  dict_get "op" items = JStr (replace_handle method) →
  truthy (dict_get "required_identity" items)
    && ne_str (dict_get "required_identity" items) (identity st) = false →
  let st' := state_of (add_router router st) in
  on_message (data_message items) st'
  = (schedule (task_for (replace_handle method) f items) st', [], Return tt).
Proof.
  intros Hdir Hs Hlast Hop Hrid. cbv zeta.
  assert (Hh : handlers (state_of (add_router router st)) !! replace_handle method = Some f).
  { unfold add_router. run. simpl.
    rewrite Hdir, register_methods_app, register_methods_cons, Hs.
    rewrite register_methods_other by done. apply lookup_insert_eq. }
  rewrite (on_message_request _ items (replace_handle method) f) by done.
  change (identity (state_of (add_router router st))) with (identity st).
  by rewrite Hrid.
Qed.

Lemma router_handler_is_dispatched_sample :
  on_message (data_message [("op", JStr "stats"); ("sender", JStr "b")])
    (state_of (add_router stats_router alice))
  = (schedule (task_for "stats" (def0 "StatsRouter.handle_stats" (Return (JInt 7)))
                 [("op", JStr "stats"); ("sender", JStr "b")])
       (state_of (add_router stats_router alice)),
     [], Return tt).
Proof.
  refine (router_handler_is_dispatched alice stats_router []
            [("router_load", def0 "StatsRouter.router_load" (Raise (Exception "load")));
             ("router_unload", router_unload)]
            "handle_stats" _ [("op", JStr "stats"); ("sender", JStr "b")] _ _ _ _ _);
    try reflexivity.
  intros (method & f & Hin & Hs & _). simpl in Hin.
  destruct Hin as [Hin | [Hin | []]]; inversion Hin; subst; discriminate.
Defined.

(** ** A call from end to end *)

Lemma get_calls (st : IPC) (op : string) (timeout : Z)
    (required_identity : option string) (data : list (string * JSON))
    (entropy : list byte) (susp : Suspension) :
  is_Some (channel st) →
  connected (redis st) = true →
  dict_has "nonce" data = false →
  calls_of (get op timeout required_identity data entropy susp st)
  = Urandom 16
    :: calls_of (publish op required_identity (Some (token 16 entropy)) data st).
Proof.
  intros Hc Hup Hkw. rewrite get_started by done.
  unfold try_finally, wait_for, del_nonce, publish_from_get, publish, redis_publish.
  rewrite Hkw. run. simpl.
  rewrite Hup. simpl.
  destruct (cancelled susp); simpl;
    repeat (case_match; simpl in *; simplify_eq; try done).
Qed.

(** What a task does when its handler returns and Redis is up. *)
Lemma run_task_returns (st : IPC) (t : Task) (r : JSON) :
  body (task_handler t)
       (if truthy (task_message t) then [task_message t] else []) = Return r →
  connected (redis st) = true →
  run_task t st
  = (st,
     Call (qualname (task_handler t))
          (if truthy (task_message t) then [task_message t] else [])
       :: (if truthy r && truthy (task_nonce t)
           then [reply_envelope st (task_nonce t) r] else []),
     Return tt).
Proof.
  intros Hr Hup. unfold run_task, _run_handler, call, redis_publish, reply_envelope.
  run. simpl.
  destruct (truthy (task_message t)); simpl; rewrite Hr; simpl;
    destruct (truthy r && truthy (task_nonce t)); simpl; by rewrite ?Hup.
Qed.



(** ** Calls and the replies that are not theirs *)

(** A message that does not answer the call leaves its future alone. *)
Lemma on_message_not_answering (msg : RawMsg) (st : IPC) (tok : string) (fut : nat) :
  owns st tok fut →
  answers (identity st) tok msg = false →
  future_state fut (state_of (on_message msg st)) = future_state fut st.
Proof.
  intros [Hslot Honly] Hno. unfold answers in Hno.
  unfold on_message, message_get, key_in, key_get, set_result, create_task. run.
  repeat (case_match; simpl in *; simplify_eq; try done).
  match goal with
  | Hn : nonces _ !! ?s = Some ?n |- _ =>
      destruct (decide (n = fut)) as [->|Hne];
        [apply Honly in Hn; subst s | by apply future_state_set_ne]
  end.
  rewrite String.eqb_refl in Hno.
  match goal with
  | Hty : negb _ = false, Hcond : _ && true = true |- _ =>
      apply negb_false_iff in Hty; rewrite Hty in Hno;
      rewrite andb_true_r in Hcond, Hno; simpl in Hno; rewrite Hcond in Hno
  end.
  discriminate.
Qed.

Lemma owns_setup (st st' : IPC) (tok : string) (fut : nat) :
  same_setup st st' → owns st tok fut → owns st' tok fut.
Proof.
  intros (_ & _ & _ & _ & _ & _ & _ & Hn) [Hslot Honly]. unfold owns. by rewrite Hn.
Qed.

Lemma same_setup_identity (st st' : IPC) : same_setup st st' → identity st' = identity st.
Proof. by intros (_ & _ & _ & ? & _). Qed.

Lemma consume_not_answering (events : list Event) (st : IPC) (tok : string) (fut : nat) :
  owns st tok fut →
  Forall (fun e => event_answers (identity st) tok e = false) events →
  future_state fut (state_of (consume events st)) = future_state fut st.
Proof.
  intros Hown Hall. revert st Hown Hall.
  induction events as [|[msg|] rest IH]; intros st Hown Hall; simpl; [done| |done].
  apply Forall_cons in Hall as [Hmsg Hrest]. simpl in Hmsg.
  unfold bind.
  pose proof (on_message_not_answering msg st tok fut Hown Hmsg) as Hstep.
  pose proof (on_message_setup msg st) as [Hs _].
  destruct (on_message msg st) as [[st1 t1] [[]|e]]; unfold state_of in *; simpl in *;
    [|done].
  assert (Hown1 : owns st1 tok fut) by (by apply owns_setup with st).
  assert (Hrest1 : Forall (fun e => event_answers (identity st1) tok e = false) rest)
    by (by rewrite (same_setup_identity st st1)).
  specialize (IH st1 Hown1 Hrest1).
  destruct (consume rest st1) as [[st2 t2] r]. simpl in *. congruence.
Qed.

Lemma listen_ipc_not_answering (events : list Event) (st : IPC) (tok : string) (fut : nat) :
  owns st tok fut →
  Forall (fun e => event_answers (identity st) tok e = false) events →
  future_state fut (state_of (listen_ipc events st)) = future_state fut st.
Proof.
  intros Hown Hall.
  destruct (listen_ipc_stages events st) as (st1 & st2 & Hs1 & Hl1 & Hst2 & _ & Hl3).
  unfold future_state at 1. rewrite Hl3.
  destruct Hst2 as [-> | ->]; [unfold future_state; by rewrite Hl1|].
  fold (future_state fut (state_of (consume events st1))).
  rewrite (consume_not_answering events st1 tok fut).
  - unfold future_state. by rewrite Hl1.
  - by apply owns_setup with st.
  - by rewrite (same_setup_identity st st1).
Qed.

Lemma consume_app (events more : list Event) (st : IPC) :
  result_of (consume events st) = Return Listening →
  consume (events ++ more) st = consume more (state_of (consume events st)).
Proof.
  revert st. induction events as [|[msg|] rest IH]; intros st Hr; simpl; [done| |done].
  simpl in Hr. unfold bind in *.
  pose proof (on_message_calls msg st) as Hc.
  destruct (on_message msg st) as [[st1 t1] [[]|e]]; unfold calls_of in Hc; simpl in *;
    subst t1; [|done].
  specialize (IH st1).
  destruct (consume rest st1) as [[st2 t2] r] eqn:E. unfold result_of, state_of in *.
  simpl in *. rewrite IH by done.
  by destruct (consume more st2) as [[st3 t3] r3].
Qed.

Lemma consume_first_answer (pre rest : list Event) (items : list (string * JSON))
    (st : IPC) (tok : string) (fut : nat) :
  owns st tok fut →
  future_state fut st = Pending →
  Forall (fun e => event_answers (identity st) tok e = false) pre →
  result_of (consume pre st) = Return Listening →
  dict_get "op" items = JNull →
  ne_str (dict_get "sender" items) (identity st) = true →
  dict_get "nonce" items = JStr tok →
  future_state fut (state_of (consume (pre ++ Message (data_message items) :: rest) st))
  = Done (dict_get "data" items).
Proof.
  intros Hown Hp Hpre Hr Hop Hs Hn.
  rewrite consume_app by done.
  pose proof (consume_not_answering pre st tok fut Hown Hpre) as Hkeep.
  pose proof (consume_setup pre st) as [Hset _].
  set (st1 := state_of (consume pre st)) in *.
  assert (Hown1 : owns st1 tok fut) by (by apply owns_setup with st).
  destruct Hown1 as [Hslot1 _].
  simpl. unfold bind.
  rewrite (on_message_reply st1 items tok fut); try done.
  - unfold resolve. rewrite Hkeep, Hp. simpl.
    pose proof (consume_keeps_result rest
                  (set_future fut (Done (dict_get "data" items)) st1) fut _
                  (future_state_set fut _ st1)) as Hfinal.
    by destruct (consume rest _) as [[st2 t2] r].
  - by rewrite (same_setup_identity st st1).
Qed.

Lemma listen_ipc_first_answer (pre rest : list Event) (items : list (string * JSON))
    (st : IPC) (tok : string) (fut : nat) :
  is_Some (channel st) →
  owns st tok fut →
  future_state fut st = Pending →
  Forall (fun e => event_answers (identity st) tok e = false) pre →
  result_of (consume pre st) = Return Listening →
  dict_get "op" items = JNull →
  ne_str (dict_get "sender" items) (identity st) = true →
  dict_get "nonce" items = JStr tok →
  future_state fut
    (state_of (listen_ipc (pre ++ Message (data_message items) :: rest) st))
  = Done (dict_get "data" items).
Proof.
  intros Hc Hown Hp Hpre Hr Hop Hs Hn.
  rewrite listen_ipc_started by done.
  pose proof (consume_first_answer pre rest items st tok fut Hown Hp Hpre Hr Hop Hs Hn)
    as Hdone.
  unfold try_except.
  destruct (consume (pre ++ Message (data_message items) :: rest) st)
    as [[st1 t1] [a|e]]; [exact Hdone|].
  pose proof (except_cancelled_loop e st1) as [Hl _].
  destruct (except_cancelled e st1) as [[st2 t2] r].
  unfold future_state, state_of in *. simpl in *. by rewrite Hl.
Qed.

Lemma registered_pending (entropy : list byte) (st : IPC) :
  future_state (fresh (dom (futures (loop st)))) (registered entropy st) = Pending.
Proof. unfold registered, future_state. simpl. by rewrite lookup_insert_eq. Qed.

Lemma registered_owns (entropy : list byte) (st : IPC) :
  slots_sound st →
  owns (registered entropy st) (token 16 entropy) (fresh (dom (futures (loop st)))).
Proof.
  intros Hsound. split; [apply lookup_insert_eq|].
  intros n Hn. unfold registered in Hn. simpl in Hn.
  destruct (decide (token 16 entropy = n)) as [<-|Hne]; [done|].
  rewrite lookup_insert_ne in Hn by done.
  apply Hsound, elem_of_dom in Hn. by apply is_fresh in Hn.
Qed.

Lemma registered_keeps_owner (entropy : list byte) (st : IPC) (tok : string) (fut : nat) :
  slots_sound st →
  tok ≠ token 16 entropy →
  owns st tok fut →
  owns (registered entropy st) tok fut
  ∧ future_state fut (registered entropy st) = future_state fut st.
Proof.
  intros Hsound Hne [Hslot Honly].
  assert (Hfut : fut ≠ fresh (dom (futures (loop st)))).
  { intros ->. apply Hsound, elem_of_dom in Hslot. by apply is_fresh in Hslot. }
  split; [split|].
  - unfold registered. simpl. by rewrite lookup_insert_ne.
  - intros n Hn. unfold registered in Hn. simpl in Hn.
    destruct (decide (token 16 entropy = n)) as [<-|Hne'].
    + rewrite lookup_insert_eq in Hn. congruence.
    + rewrite lookup_insert_ne in Hn by done. by apply Honly.
  - unfold registered, future_state. simpl. by rewrite lookup_insert_ne.
Qed.

Lemma registered_sound (entropy : list byte) (st : IPC) :
  slots_sound st → slots_sound (registered entropy st).
Proof.
  intros Hsound n fut Hn. unfold registered in *. simpl in *.
  destruct (decide (token 16 entropy = n)) as [<-|Hne].
  - rewrite lookup_insert_eq in Hn. injection Hn as <-.
    rewrite lookup_insert_eq. by eexists.
  - rewrite lookup_insert_ne in Hn by done. apply Hsound in Hn.
    rewrite lookup_insert. case_decide; [by eexists|done].
Qed.

(** What [get] gives when the wait ends with the slot still in the table:
    the result of the future, or the timeout. *)
Lemma get_after_wait (st : IPC) (op : string) (timeout : Z)
    (required_identity : option string) (data : list (string * JSON))
    (entropy : list byte) (susp : Suspension) :
  is_Some (channel st) →
  connected (redis st) = true →
  dict_has "nonce" data = false →
  cancelled susp = false →
  let fut := fresh (dom (futures (loop st))) in
  let woken := meanwhile susp (registered entropy st) in
  nonces woken !! token 16 entropy = Some fut →
  (∀ d, future_state fut woken = Done d →
     result_of (get op timeout required_identity data entropy susp st) = Return d
     ∧ state_of (get op timeout required_identity data entropy susp st)
       = with_nonces (delete (token 16 entropy) (nonces woken)) woken)
  ∧ (future_state fut woken = Pending →
     result_of (get op timeout required_identity data entropy susp st)
     = Raise TimeoutError).
Proof.
  intros Hc Hup Hkw Hnc fut woken Hslot.
  split; [intros d|]; intros Hf; rewrite get_started by done;
    unfold try_finally, publish_from_get, publish, redis_publish, wait_for, del_nonce;
    rewrite Hkw; run; simpl;
    rewrite Hup; simpl; rewrite Hnc; fold woken; fold fut; rewrite Hf; simpl;
    rewrite ?Hslot; simpl; by rewrite ?Hslot.
Qed.

Lemma loop_handles_nonces (events : list Event) (st : IPC) :
  is_Some (channel st) →
  nonces (meanwhile (loop_handles events) st) = nonces st.
Proof. intros Hc. by apply listen_ipc_keeps_nonces. Qed.





(** ** Two calls at a time *)

Lemma reply_not_other (ident tok tok' : string) (items : list (string * JSON)) :
  dict_get "nonce" items = JStr tok →
  tok ≠ tok' →
  event_answers ident tok' (Message (data_message items)) = false.
Proof.
  intros Hn Hne. unfold event_answers, answers. simpl. rewrite Hn.
  destruct (String.eqb_spec tok tok'); [done|]. by rewrite andb_false_r.
Qed.

Lemma consume_reply (st : IPC) (items : list (string * JSON)) (tok : string) (fut : nat) :
  dict_get "op" items = JNull →
  ne_str (dict_get "sender" items) (identity st) = true →
  dict_get "nonce" items = JStr tok →
  nonces st !! tok = Some fut →
  result_of (consume [Message (data_message items)] st) = Return Listening.
Proof.
  intros Hop Hs Hn Hslot. simpl. unfold bind.
  by rewrite (on_message_reply st items tok fut).
Qed.



(** ** The table and the futures *)

Lemma slots_sound_transfer (st st' : IPC) :
  nonces st' = nonces st →
  (∀ fut, is_Some (futures (loop st) !! fut) → is_Some (futures (loop st') !! fut)) →
  slots_sound st → slots_sound st'.
Proof.
  intros Hn Hf Hsound n fut Hslot. rewrite Hn in Hslot. by apply Hf, Hsound with n.
Qed.

Lemma on_message_futures (msg : RawMsg) (st : IPC) (fut : nat) :
  is_Some (futures (loop st) !! fut) →
  is_Some (futures (loop (state_of (on_message msg st))) !! fut).
Proof.
  intros Hf.
  destruct (on_message_state msg st) as [-> | [(fut' & d & _ & ->) | [t ->]]];
    [done| |done].
  simpl. rewrite lookup_insert. case_decide; [by eexists|done].
Qed.

Lemma consume_futures (events : list Event) (st : IPC) (fut : nat) :
  is_Some (futures (loop st) !! fut) →
  is_Some (futures (loop (state_of (consume events st))) !! fut).
Proof.
  revert st. induction events as [|[msg|] rest IH]; intros st Hf; simpl; [done| |done].
  unfold bind. pose proof (on_message_futures msg st fut Hf) as Hstep.
  destruct (on_message msg st) as [[st1 t1] [[]|e]]; unfold state_of in *; simpl in *;
    [|done].
  specialize (IH st1 Hstep). by destruct (consume rest st1) as [[st2 t2] r].
Qed.

Lemma listen_ipc_sound (events : list Event) (st : IPC) :
  slots_sound st → slots_sound (state_of (listen_ipc events st)).
Proof.
  intros Hsound.
  destruct (listen_ipc_stages events st) as (st1 & st2 & Hs1 & Hl1 & Hst2 & Hs3 & Hl3).
  assert (Hsound1 : slots_sound st1).
  { apply slots_sound_transfer with st; [apply Hs1| |done]. by rewrite Hl1. }
  assert (Hsound2 : slots_sound st2).
  { destruct Hst2 as [-> | ->]; [done|].
    apply slots_sound_transfer with st1; [apply consume_setup| |done].
    intros fut. apply consume_futures. }
  apply slots_sound_transfer with st2; [apply Hs3| |done]. by rewrite Hl3.
Qed.

Lemma set_future_sound (fut : nat) (f : Future) (st : IPC) :
  slots_sound st → slots_sound (set_future fut f st).
Proof.
  intros Hsound. apply slots_sound_transfer with st; [done| |done].
  intros fut' Hf. simpl. rewrite lookup_insert. case_decide; [by eexists|done].
Qed.

Lemma del_nonce_sound (nonce : string) (st : IPC) :
  slots_sound st → slots_sound (state_of (del_nonce nonce st)).
Proof.
  intros Hsound. unfold del_nonce. run.
  destruct (nonces st !! nonce) as [own|] eqn:E; simpl; [|done].
  intros k fut Hk. simpl in *.
  destruct (decide (nonce = k)) as [<-|Hne]; [by rewrite lookup_delete_eq in Hk|].
  rewrite lookup_delete_ne in Hk by done. by apply Hsound with k.
Qed.

Lemma wait_for_sound (fut : nat) (timeout : Z) (susp : Suspension) (st : IPC) :
  slots_sound (meanwhile susp st) →
  slots_sound (state_of (wait_for fut timeout susp st)).
Proof.
  intros Hsound. unfold wait_for. run. simpl.
  destruct (cancelled susp); simpl; [by apply set_future_sound|].
  destruct (future_state fut (meanwhile susp st)); simpl; try done.
  by apply set_future_sound.
Qed.

(** X29: the table of pending calls never refers to a future the event
    loop does not have.  This holds of a new instance, and [listen_ipc]
    and [get] keep it, the latter provided the tasks that run during its
    wait keep it. *)
Theorem table_refers_to_futures :
  (∀ cls pool ev chan ident eh self_dir entropy,
     slots_sound (init cls pool ev chan ident eh self_dir entropy))
  ∧ (∀ events st, slots_sound st → slots_sound (state_of (listen_ipc events st)))
  ∧ (∀ op timeout required_identity data entropy susp st,
       slots_sound st →
       (∀ s, slots_sound s → slots_sound (meanwhile susp s)) →
       slots_sound (state_of (get op timeout required_identity data entropy susp st))).
Proof.
  split; [|split].
  - intros cls pool ev chan ident eh self_dir entropy n fut Hn. simpl in Hn.
    by rewrite lookup_empty in Hn.
  - intros events st. apply listen_ipc_sound.
  - intros op timeout required_identity data entropy susp st Hsound Hquiet.
    destruct (channel st) as [ps|] eqn:Hc.
    + rewrite get_state by (by eexists). apply del_nonce_sound.
      unfold bind.
      pose proof (publish_from_get_state (registered entropy st) op required_identity
                    (token 16 entropy) data) as Hp.
      destruct (publish_from_get _ _ _ _ _) as [[st1 t1] [[]|e]]; unfold state_of in Hp;
        simpl in Hp; subst st1.
      * pose proof (wait_for_sound (fresh (dom (futures (loop st)))) timeout susp
                      (registered entropy st)
                      (Hquiet _ (registered_sound entropy st Hsound))) as Hw.
        by destruct (wait_for _ _ _ _) as [[st2 t2] r].
      * by apply registered_sound.
    + unfold get. run. by rewrite Hc.
Qed.

Lemma table_refers_to_futures_sample :
  slots_sound (state_of (get "ping" 5 None [] entropy0 nobody_listens alice)).
Proof.
  refine (proj2 (proj2 table_refers_to_futures) "ping" 5%Z None [] entropy0
            nobody_listens alice _ _).
  - intros n fut Hn. vm_compute in Hn. discriminate.
  - intros s Hs. exact Hs.
Defined.

(** ** get with a nonce of the caller's *)

(** X30: [nonce] is no parameter of [get], so [get(op, nonce=...)] takes it
    as a keyword argument of the payload and hands it to [publish] beside
    its own token.  On an instance that is subscribed the call raises
    [TypeError] inside the [try]: the token is drawn and the future made,
    but nothing is published, the wait never starts, and the slot is out
    of the table again. *)
Theorem get_rejects_nonce_keyword (st : IPC) (op : string) (timeout : Z)
    (required_identity : option string) (data : list (string * JSON))
    (entropy : list byte) (susp : Suspension) :
  is_Some (channel st) →
  dict_has "nonce" data = true →
  get op timeout required_identity data entropy susp st
  = (with_nonces (delete (token 16 entropy) (nonces st))
       (with_loop {| futures := <[fresh (dom (futures (loop st))) := Pending]>
                                  (futures (loop st));
                     tasks := tasks (loop st) |} st),
     [Urandom 16],
     Raise (TypeError "publish() got multiple values for keyword argument 'nonce'")).
Proof.
  intros Hc Hkw. rewrite get_started by done.
  unfold try_finally, publish_from_get, del_nonce, registered. rewrite Hkw. run. simpl.
  rewrite lookup_insert_eq. simpl. by rewrite delete_insert_eq.
Qed.

Lemma get_rejects_nonce_keyword_sample :
  result_of (get "ping" 5 None [("nonce", JStr "mine")] entropy0
               (loop_handles [Message (data_message (reply_items pong))]) alice)
  = Raise (TypeError "publish() got multiple values for keyword argument 'nonce'").
Proof.
  rewrite (get_rejects_nonce_keyword alice "ping" 5 None [("nonce", JStr "mine")] entropy0
             (loop_handles [Message (data_message (reply_items pong))]));
    [reflexivity | eexists; reflexivity | reflexivity].
Defined.
